(** * qdb: the emacs client of the qdb debugger (src/emacs/qdb.py)

    A shallow embedding of the two classes of the client:
    - [QdbRepl], the command loop that turns REPL lines into tagged JSON
      commands and sends them over the websocket;
    - [ServerPrinter], the reader that drains tagged JSON events from the
      same websocket and renders them into the trace file.

    Python values are embedded as [pyval]; a Python exception is a value
    of [exn] returned through a small state-and-exception monad; the
    interpreter's [json] module is an interface ([JsonLib]) the
    development is parametric in. *)

From Stdlib Require Import Ascii String.
From stdpp Require Import gmap strings list fin_maps pretty.

Open Scope string_scope.

(** ** Python values *)

Module Py.

(** The values that cross the wire: what [json.loads] can return and
    what the client hands to [json.dumps]. A [dict] is a finite map on
    its (string) keys. Floats are left out. *)
#[warnings="-register-all"]
Inductive pyval : Type :=
| PNone
| PBool (b : bool)
| PInt (z : Z)
| PStr (s : string)
| PList (l : list pyval)
| PDict (d : gmap string pyval).

(** The exceptions the client can raise. *)
Inductive exn : Type :=
| TypeError
| KeyError
| IndexError
| AttributeError.

(** [bool(v)], the test behind [if v] and [not v]. *)
Definition truthy (v : pyval) : bool :=
  match v with
  | PNone => false
  | PBool b => b
  | PInt z => negb (z =? 0)%Z
  | PStr s => negb (String.eqb s "")
  | PList l => match l with [] => false | _ :: _ => true end
  | PDict d => negb (bool_decide (d = ∅))
  end.

(** [s.split()]: the maximal runs of non-whitespace characters. *)
Definition split (s : string) : list string := String.words s.

Fixpoint lstrip (s : string) : string :=
  match s with
  | String a s' => if Ascii.is_space a then lstrip s' else s
  | EmptyString => EmptyString
  end.

(** [s.strip()] *)
Definition strip (s : string) : string :=
  String.rev (lstrip (String.rev (lstrip s))).

(** [d[k]] for a string key [k]. *)
Definition getitem_str (v : pyval) (k : string) : pyval + exn :=
  match v with
  | PDict d => match d !! k with Some x => inl x | None => inr KeyError end
  | _ => inr TypeError
  end.

(** [d.get(k)] on a dict. *)
Definition dict_get (d : gmap string pyval) (k : string) : pyval :=
  default PNone (d !! k).

Fixpoint last_char (s : string) : option string :=
  match s with
  | EmptyString => None
  | String a EmptyString => Some (String a EmptyString)
  | String _ s' => last_char s'
  end.

(** [v[-1]] *)
Definition getitem_last (v : pyval) : pyval + exn :=
  match v with
  | PList l => match last l with Some x => inl x | None => inr IndexError end
  | PStr s => match last_char s with Some c => inl (PStr c) | None => inr IndexError end
  | PDict _ => inr KeyError
  | _ => inr TypeError
  end.

(** ['%d' % v] *)
Definition fmt_d (v : pyval) : string + exn :=
  match v with
  | PInt z => inl (pretty z)
  | PBool b => inl (if b then "1" else "0")
  | _ => inr TypeError
  end.

(** [s + v] for a string [s]: concatenation is defined on strings only. *)
Definition str_add (s : string) (v : pyval) : string + exn :=
  match v with
  | PStr t => inl (s ++ t)
  | _ => inr TypeError
  end.

(** [v + s] for a string [s]. *)
Definition add_str (v : pyval) (s : string) : string + exn :=
  match v with
  | PStr t => inl (t ++ s)
  | _ => inr TypeError
  end.

End Py.
Export Py.

(** ** State and exceptions *)

Module Eff.

(** A computation over a state [S] either returns a value or raises;
    either way the state reached is kept. *)
Definition M (S A : Type) : Type := S → (A + exn) * S.

Definition ret {S A} (a : A) : M S A := λ s, (inl a, s).
Definition raise {S A} (e : exn) : M S A := λ s, (inr e, s).
Definition bind {S A B} (m : M S A) (k : A → M S B) : M S B :=
  λ s, match m s with
       | (inl a, s') => k a s'
       | (inr e, s') => (inr e, s')
       end.
Definition modify {S} (f : S → S) : M S unit := λ s, (inl (), f s).
Definition gets {S A} (f : S → A) : M S A := λ s, (inl (f s), s).
(** A pure step that may raise. *)
Definition lift {S A} (r : A + exn) : M S A := λ s, (r, s).

(** [for x in xs: body(x)] *)
Fixpoint for_each {S A} (xs : list A) (body : A → M S unit) : M S unit :=
  match xs with
  | [] => ret ()
  | x :: xs' => bind (body x) (λ _, for_each xs' body)
  end.

End Eff.
Export Eff.

Notation "x <- m ;; k" := (bind m (λ x, k))
  (at level 100, m at next level, right associativity).
Notation "m ;;; k" := (bind m (λ _, k))
  (at level 100, right associativity).

(** ** What the client takes from the Python runtime *)

(** The [json] module, the [repr] of containers and [str.format] are not
    code of the client. [frame] is the text that travels on the
    websocket; [json_loads] answers [None] where Python raises. *)
Class JsonLib : Type := {
  frame : Type;
  json_dumps : pyval → frame;
  json_loads : frame → option pyval;
  json_loads_dumps : ∀ v, json_loads (json_dumps v) = Some v;
  (** [repr] of a list or a dict, as ['%s'] and [print] show them *)
  repr_container : pyval → string;
  (** [template.format(uuid=u)] *)
  format_uuid : string → string → string;
}.

(** [str(v)], which is what ['%s' % v] and [print(v)] write. *)
Definition to_str `{JsonLib} (v : pyval) : string :=
  match v with
  | PNone => "None"
  | PBool b => if b then "True" else "False"
  | PInt z => pretty z
  | PStr s => s
  | PList _ | PDict _ => repr_container v
  end.

(** ** QdbRepl *)

Module QdbRepl.
Section Repl.
Context `{JsonLib}.

Definition DEFAULT_WS_ADDRESS := "ws://localhost:8002/debug_session/{uuid}".
Definition DEFAULT_UUID := "qdb".
(** [FILE_FORMAT % u] with [FILE_FORMAT = '/tmp/qdb/.%s'] *)
Definition FILE_FORMAT (u : string) : string := "/tmp/qdb/." ++ u.

(** What the REPL process does to the outside, in order. *)
Inductive effect : Type :=
| EConnect (url : string)        (* create_connection(url) *)
| ESend (msg : frame)            (* self._ws.send(msg) *)
| ESpawn (filename : string)     (* Process(target=ServerPrinter, ...).start() *)
| EPrint (line : string)         (* print(line) *)
| EHelp (arg : string).          (* Cmd.do_help(arg): local help text *)

(** The fields of a [QdbRepl] object, [lastcmd] of its [Cmd] base class,
    and the effects performed so far. [_ws] holds the address connected
    to, or [None] before [_connect]. *)
Record repl : Type := Repl {
  auth_msg : option string;
  wsaddress : option string;
  uuid : option string;
  filename : option string;
  _ws : option string;
  _stop : bool;
  lastcmd : string;
  log : list effect;
}.

Definition set_auth_msg (v : option string) (st : repl) : repl :=
  Repl v (wsaddress st) (uuid st) (filename st) (_ws st) (_stop st) (lastcmd st) (log st).
Definition set_wsaddress (v : option string) (st : repl) : repl :=
  Repl (auth_msg st) v (uuid st) (filename st) (_ws st) (_stop st) (lastcmd st) (log st).
Definition set_uuid (v : option string) (st : repl) : repl :=
  Repl (auth_msg st) (wsaddress st) v (filename st) (_ws st) (_stop st) (lastcmd st) (log st).
Definition set_filename (v : option string) (st : repl) : repl :=
  Repl (auth_msg st) (wsaddress st) (uuid st) v (_ws st) (_stop st) (lastcmd st) (log st).
Definition set_ws (v : option string) (st : repl) : repl :=
  Repl (auth_msg st) (wsaddress st) (uuid st) (filename st) v (_stop st) (lastcmd st) (log st).
Definition set_stop (v : bool) (st : repl) : repl :=
  Repl (auth_msg st) (wsaddress st) (uuid st) (filename st) (_ws st) v (lastcmd st) (log st).
Definition set_lastcmd (v : string) (st : repl) : repl :=
  Repl (auth_msg st) (wsaddress st) (uuid st) (filename st) (_ws st) (_stop st) v (log st).
Definition add_log (e : effect) (st : repl) : repl :=
  Repl (auth_msg st) (wsaddress st) (uuid st) (filename st) (_ws st) (_stop st) (lastcmd st)
       (log st ++ [e]).

Definition emit (e : effect) : M repl unit := modify (add_log e).

Definition print (line : string) : M repl unit := emit (EPrint line).

(** [QdbRepl()] as [__main__] builds it and fills it from the command
    line: every option is a string or [None]. *)
Definition init (wsaddress uuid auth_msg : option string) : repl :=
  Repl auth_msg wsaddress uuid None None false "" [].

Definition fmt_msg (event : string) (payload : pyval) : frame :=
  if negb (truthy payload)
  then json_dumps (PDict {[ "e" := PStr event ]})
  else json_dumps (PDict {[ "e" := PStr event; "p" := payload ]}).

(** [self._ws.send(msg)]; before [_connect], [self._ws] is [None]. *)
Definition send (msg : frame) : M repl unit :=
  ws <- gets _ws ;;
  match ws with
  | None => raise AttributeError
  | Some _ => emit (ESend msg)
  end.

(** [payload] defaults to [None]. *)
Definition send_command (event : string) (payload : pyval) : M repl unit :=
  send (fmt_msg event payload).

(** An attribute holding a string or [None], as a Python value. *)
Definition opt_str (o : option string) : pyval :=
  match o with Some s => PStr s | None => PNone end.

Definition _connect : M repl unit :=
  addr <- gets wsaddress ;;
  u <- gets uuid ;;
  match addr with
  | Some addr =>
      let url := format_uuid addr (to_str (opt_str u)) in
      emit (EConnect url) ;;;
      modify (set_ws (Some url)) ;;;
      a <- gets auth_msg ;;
      send_command "start" (opt_str a) ;;;
      modify (set_filename (Some (FILE_FORMAT (to_str (opt_str u))))) ;;;
      fn <- gets filename ;;
      emit (ESpawn (default "" fn)) ;;;
      print ("qdb connected: " ++ default "" fn)
  | None => raise AttributeError
  end.

Definition preloop : M repl unit :=
  addr <- gets wsaddress ;;
  (if negb (truthy (opt_str addr))
   then modify (set_wsaddress (Some DEFAULT_WS_ADDRESS)) else ret ()) ;;;
  u <- gets uuid ;;
  (if negb (truthy (opt_str u))
   then modify (set_uuid (Some DEFAULT_UUID)) else ret ()) ;;;
  a <- gets auth_msg ;;
  (if negb (truthy (opt_str a))
   then modify (set_auth_msg (Some "")) else ret ()) ;;;
  _connect.

Definition postcmd (stop : bool) (line : string) : M repl bool :=
  s <- gets _stop ;;
  ret (stop || s).

(** [arg.split()] as a list of Python strings; only strings have the method. *)
Definition str_split (arg : pyval) : list pyval + exn :=
  match arg with
  | PStr s => inl (PStr <$> split s)
  | _ => inr AttributeError
  end.

(** [args[i]] on a list, for an index [i] that is not negative. *)
Definition index (args : list pyval) (i : nat) : pyval + exn :=
  match args !! i with Some x => inl x | None => inr IndexError end.

(** [t[i] = v] on a tuple: tuples do not support item assignment. *)
Definition tuple_setitem (t : pyval * pyval) (i : nat) (v : pyval) : M repl unit :=
  raise TypeError.

Definition parse_break_arg (arg : pyval) : M repl pyval :=
  args <- lift (str_split arg) ;;
  (if (length args =? 1)%nat
   then print "*** error: break_arg: Missing line number" else ret ()) ;;;
  file_ <- lift (index args 0) ;;
  line <- lift (index args 1) ;;
  let func := PNone in
  let cond := PNone in
  for_each (zip [func; cond] (drop 2 args))
           (λ pair, tuple_setitem pair 0 (pair.2)) ;;;
  ret (PDict {[ "file" := file_; "line" := line; "func" := func; "cond" := cond ]}).

(** A call [self.parse_break_arg(a1, ..., an)]: the method is declared
    with the one parameter [arg] besides [self], and a call with any
    other number of arguments raises before the body runs. *)
Definition call_parse_break_arg (positional : list pyval) : M repl pyval :=
  match positional with
  | [arg] => parse_break_arg arg
  | _ => raise TypeError
  end.

Definition missing_argument (cmd : string) : M repl unit :=
  print ("*** error: " ++ cmd ++ ": missing argument(s)").

Definition default_ (line : string) : M repl unit :=
  send_command "eval" (PStr line).

Definition do_step (arg : string) : M repl unit := send_command "step" PNone.
Definition do_return (arg : string) : M repl unit := send_command "return" PNone.
Definition do_next (arg : string) : M repl unit := send_command "next" PNone.
Definition do_until (arg : string) : M repl unit := send_command "until" PNone.
Definition do_continue (arg : string) : M repl unit := send_command "continue" PNone.

Definition do_watch (arg : string) : M repl unit :=
  if negb (truthy (PStr arg)) then missing_argument "w(atch)"
  else send_command "set_watch" (PList (PStr <$> split arg)).

Definition do_unwatch (arg : string) : M repl unit :=
  if negb (truthy (PStr arg)) then missing_argument "unw(atch)"
  else send_command "clear_watch" (PList (PStr <$> split arg)).

(** [temp] defaults to [False]. *)
Definition do_break (arg : string) (temp : bool) : M repl unit :=
  if negb (truthy (PStr arg)) then missing_argument "b(reak)"
  else
    break_arg <- call_parse_break_arg [PStr arg; PBool temp] ;;
    if truthy break_arg then send_command "set_break" break_arg else ret ().

Definition do_clear (arg : string) : M repl unit :=
  if negb (truthy (PStr arg)) then missing_argument "cl(ear)"
  else
    break_arg <- call_parse_break_arg [PStr arg] ;;
    if truthy break_arg then send_command "clear_break" break_arg else ret ().

Definition do_tbreak (arg : string) : M repl unit := do_break arg true.

Definition do_list (arg : string) : M repl unit :=
  if negb (truthy (PStr arg)) then missing_argument "l(ist)"
  else
    args <- lift (str_split (PStr arg)) ;;
    file_ <- lift (index args 0) ;;
    let start := PNone in
    let end_ := PNone in
    for_each (zip [start; end_] (drop 1 args))
             (λ pair, tuple_setitem pair 0 (pair.2)) ;;;
    send_command "list" (PDict {[ "file" := file_; "start" := start; "end" := end_ ]}).

Definition do_quit (arg : string) : M repl unit :=
  (if negb (truthy (PStr arg)) || String.eqb arg "soft"
   then send_command "disable" (PStr "soft")
   else if String.eqb arg "hard"
   then send_command "disable" (PStr "hard")
   else print "*** error: disable: argument must be 'soft' or 'hard'") ;;;
  modify (set_stop true).

(** *** The command loop inherited from [cmd.Cmd] *)

(** [Cmd.identchars]: the ASCII letters, the digits and the underscore. *)
Definition identchar (a : ascii) : bool :=
  let n := Ascii.N_of_ascii a in
  ((48 <=? n) && (n <=? 57) || (65 <=? n) && (n <=? 90)
   || (97 <=? n) && (n <=? 122) || (n =? 95))%N.

(** The longest prefix of identifier characters, and what follows it. *)
Fixpoint span_ident (s : string) : string * string :=
  match s with
  | String a s' =>
      if identchar a
      then let '(cmd, rest) := span_ident s' in (String a cmd, rest)
      else (EmptyString, s)
  | EmptyString => (EmptyString, EmptyString)
  end.

(** [Cmd.parseline]: the command word, its argument and the stripped
    line. The class has no [do_shell], so a line that starts with [!]
    has no command word. *)
Definition parseline (line : string) : option string * option string * string :=
  let line := strip line in
  match line with
  | EmptyString => (None, None, line)
  | String c rest =>
      if Ascii.eqb c "!" then (None, None, line)
      else
        let line := if Ascii.eqb c "?" then "help " ++ rest else line in
        let '(cmd, tl) := span_ident line in
        (Some cmd, Some (strip tl), line)
  end.

(** The attributes of a [QdbRepl] object whose name starts with [do_]:
    the handlers of the class, their aliases, and [do_help] of [Cmd]. *)
Definition handlers : list (string * (string → M repl unit)) :=
  [ ("do_step", do_step); ("do_s", do_step);
    ("do_return", do_return); ("do_r", do_return);
    ("do_next", do_next); ("do_n", do_next);
    ("do_until", do_until); ("do_unt", do_until);
    ("do_continue", do_continue); ("do_c", do_continue);
    ("do_watch", do_watch); ("do_w", do_watch);
    ("do_unwatch", do_unwatch); ("do_unw", do_unwatch);
    ("do_break", λ arg, do_break arg false); ("do_b", λ arg, do_break arg false);
    ("do_clear", do_clear); ("do_cl", do_clear);
    ("do_tbreak", do_tbreak);
    ("do_list", do_list); ("do_l", do_list);
    ("do_quit", do_quit); ("do_q", do_quit); ("do_EOF", do_quit);
    ("do_help", λ arg, emit (EHelp arg)) ].

(** [getattr(self, name)], [None] where it raises [AttributeError]. *)
Definition getattr (name : string) : option (string → M repl unit) :=
  (list_to_map handlers : gmap string (string → M repl unit)) !! name.

(** [Cmd.onecmd] on a line that is not blank. Every handler returns
    [None], which the loop reads as "do not stop". *)
Definition onecmd_line (line : string) : M repl bool :=
  let '(cmd, arg, line) := parseline line in
  match cmd with
  | None => default_ line ;;; ret false
  | Some cmd =>
      modify (set_lastcmd line) ;;;
      (if String.eqb line "EOF" then modify (set_lastcmd "") else ret ()) ;;;
      (if String.eqb cmd "" then default_ line
       else match getattr ("do_" ++ cmd) with
            | Some func => func (default "" arg)
            | None => default_ line
            end) ;;;
      ret false
  end.

(** [Cmd.emptyline]: a blank line repeats the last command. [lastcmd]
    is [''] or a stripped line that was not blank. *)
Definition emptyline : M repl bool :=
  last <- gets lastcmd ;;
  if truthy (PStr last) then onecmd_line last else ret false.

Definition onecmd (line : string) : M repl bool :=
  if negb (truthy (PStr (parseline line).2)) then emptyline
  else onecmd_line line.

(** The loop of [Cmd.cmdloop] over the lines the user types. When the
    input is exhausted [raw_input] raises [EOFError] and the loop
    runs the line ['EOF']. *)
Fixpoint loop (lines : list string) : M repl unit :=
  match lines with
  | [] =>
      stop <- onecmd "EOF" ;;
      postcmd stop "EOF" ;;;
      ret ()
  | line :: lines' =>
      stop <- onecmd line ;;
      stop <- postcmd stop line ;;
      if stop then ret () else loop lines'
  end.

Definition cmdloop (lines : list string) : M repl unit :=
  preloop ;;; loop lines.

(** A computation that leaves what was logged in place and at most
    adds to it, whether it returns or raises. *)
Definition grows {A : Type} (m : M repl A) : Prop :=
  ∀ st, ∃ tail, log ((m st).2) = (log st ++ tail)%list.

End Repl.
End QdbRepl.

(** ** ServerPrinter *)

Module ServerPrinter.
Section Printer.
Context `{JsonLib}.

(** The trace file, opened with mode ['w'] and unbuffered: the text of
    each [print(msg, file=self._file)], in order. *)
Definition file : Type := list string.

Definition writeln (msg : string) : M file unit :=
  modify (λ f, (f ++ [msg])%list).

Definition unknown_event (e : string) : M file unit :=
  writeln ("*** error: " ++ e ++ ": unknown event type").

Definition event_print (payload : pyval) : M file unit :=
  out <- lift (getitem_str payload "output") ;;
  if truthy out
  then
    input <- lift (getitem_str payload "input") ;;
    s <- lift (add_str input ": ") ;;
    s <- lift (str_add s out) ;;
    writeln s
  else ret ().

Definition event_list (payload : pyval) : M file unit :=
  writeln (to_str payload).

Definition event_stack (payload : pyval) : M file unit :=
  frame <- lift (getitem_last payload) ;;
  f <- lift (getitem_str frame "file") ;;
  l <- lift (getitem_str frame "line") ;;
  d <- lift (fmt_d l) ;;
  writeln ("> " ++ to_str f ++ ":" ++ d) ;;;
  code <- lift (getitem_str frame "code") ;;
  s <- lift (str_add "-> " code) ;;
  writeln s.

Fixpoint chars (s : string) : list pyval :=
  match s with
  | EmptyString => []
  | String a s' => PStr (String a EmptyString) :: chars s'
  end.

(** The elements [for x in v] visits: the items of a list, the
    characters of a string, the keys of a dict. *)
Definition iter (v : pyval) : list pyval + exn :=
  match v with
  | PList l => inl l
  | PStr s => inl (chars s)
  | PDict d => inl (PStr <$> (map_to_list d).*1)
  | _ => inr TypeError
  end.

Definition event_watchlist (payload : pyval) : M file unit :=
  writeln "watchlist: [" ;;;
  items <- lift (iter payload) ;;
  for_each items (λ watched,
    name <- lift (getitem_str watched "name") ;;
    value <- lift (getitem_str watched "value") ;;
    writeln ("  > " ++ to_str name ++ ": " ++ to_str value)) ;;;
  writeln "]".

Definition event_breakpoints (payload : pyval) : M file unit := ret ().

Definition event_error (payload : pyval) : M file unit :=
  type <- lift (getitem_str payload "type") ;;
  data <- lift (getitem_str payload "data") ;;
  writeln ("*** error: " ++ to_str type ++ ": " ++ to_str data).

Definition event_return (payload : pyval) : M file unit :=
  writeln ("--> returning with " ++ to_str payload).

(** The attributes of a [ServerPrinter] object whose name starts with
    [event_]. *)
Definition renderers : list (string * (pyval → M file unit)) :=
  [ ("event_print", event_print);
    ("event_list", event_list);
    ("event_stack", event_stack);
    ("event_watchlist", event_watchlist);
    ("event_breakpoints", event_breakpoints);
    ("event_error", event_error);
    ("event_return", event_return) ].

(** [getattr(self, name, None)] *)
Definition getattr (name : string) : option (pyval → M file unit) :=
  (list_to_map renderers : gmap string (pyval → M file unit)) !! name.

(** [event.get('p')] *)
Definition get_p (event : pyval) : pyval + exn :=
  match event with
  | PDict d => inl (dict_get d "p")
  | _ => inr AttributeError
  end.

(** What the loop reads of a frame: [event['e']] and [event.get('p')]
    of the event [json.loads] makes of it. *)
Definition decode (w : frame) : option (pyval * pyval) :=
  match json_loads w with
  | Some event =>
      match getitem_str event "e", get_p event with
      | inl e, inl p => Some (e, p)
      | _, _ => None
      end
  | None => None
  end.

(** The body of the [for event in self.get_events()] loop. *)
Definition dispatch (event : pyval) : M file unit :=
  e <- lift (getitem_str event "e") ;;
  name <- lift (str_add "event_" e) ;;
  match getattr name with
  | None =>
      e <- lift (getitem_str event "e") ;;
      unknown_event (to_str e)
  | Some evfn =>
      p <- lift (get_p event) ;;
      evfn p
  end.

(** Where the printer process is: in the loop, past the loop because
    [get_events] returned, or dead from an exception that left
    [__init__]. *)
Inductive mode : Type :=
| Reading
| Terminated
| Crashed (e : exn).

(** The printer process. [socket] is what the successive calls of
    [self.socket.recv()] are going to answer: a frame, or [None] where
    the call raises; at the end of the list the connection is closed
    and [recv] raises as well. *)
Record printer : Type := Printer {
  state : mode;
  _file : file;
  socket : list (option frame);
}.

(** [__init__] up to the loop. *)
Definition init (sock : list (option frame)) : printer :=
  Printer Reading ((writeln "Tracing..." []).2) sock.

(** [next(self.get_events())]: the next event, or [None] when the
    generator returns because [recv] or [json.loads] raised. *)
Definition get_events (sock : list (option frame)) : option pyval * list (option frame) :=
  match sock with
  | [] => (None, [])
  | None :: rest => (None, rest)
  | Some w :: rest => (json_loads w, rest)
  end.

(** The end of the stream, as the specification has it: the
    connection is closed, the next [recv] raises, or the next frame is
    not JSON. *)
Inductive ended : list (option frame) → Prop :=
| ended_closed : ended []
| ended_recv (rest : list (option frame)) : ended (None :: rest)
| ended_not_json (w : frame) (rest : list (option frame)) :
    json_loads w = None → ended (Some w :: rest).

(** One turn of the loop; a process that left the loop does not move. *)
Definition step (p : printer) : option printer :=
  match state p with
  | Reading =>
      match get_events (socket p) with
      | (None, rest) => Some (Printer Terminated (_file p) rest)
      | (Some event, rest) =>
          match dispatch event (_file p) with
          | (inl _, f) => Some (Printer Reading f rest)
          | (inr e, f) => Some (Printer (Crashed e) f rest)
          end
      end
  | _ => None
  end.

(** The states the process goes through in at most [n] turns. *)
Fixpoint trace (n : nat) (p : printer) : list printer :=
  match n with
  | O => [p]
  | S n' =>
      match step p with
      | None => [p]
      | Some p' => p :: trace n' p'
      end
  end.

(** The state after at most [n] turns. *)
Fixpoint run (n : nat) (p : printer) : printer :=
  match n with
  | O => p
  | S n' =>
      match step p with
      | None => p
      | Some p' => run n' p'
      end
  end.

(** [ServerPrinter(socket, filename)]: each turn of the loop takes one
    answer of [recv], the last one finds the connection closed. *)
Definition ServerPrinter (sock : list (option frame)) : printer :=
  run (S (length sock)) (init sock).

(** How many turns of a run entered [Terminated]. *)
Fixpoint terminations (tr : list printer) : nat :=
  match tr with
  | p :: (q :: _) as tl =>
      (match state p, state q with
       | Terminated, _ => 0
       | _, Terminated => 1
       | _, _ => 0
       end + terminations tl)%nat
  | _ => 0
  end.

End Printer.
End ServerPrinter.

(** ** A runtime to compute with *)

Module Model.

(** A frame taken up to JSON parsing: the text of a JSON document, or
    text that is not well-formed JSON. *)
#[warnings="-register-all"]
Inductive text : Type :=
| Doc (v : pyval)
| Malformed (s : string).

Definition dumps (v : pyval) : text := Doc v.

Definition loads (t : text) : option pyval :=
  match t with
  | Doc v => Some v
  | Malformed _ => None
  end.

(** Every [{uuid}] of the template replaced by [u]; [skip] counts the
    characters of a placeholder still to be dropped. *)
Fixpoint format_go (skip : nat) (template u : string) : string :=
  match template with
  | EmptyString => EmptyString
  | String a rest =>
      match skip with
      | S k => format_go k rest u
      | O =>
          if String.prefix "{uuid}" template
          then u ++ format_go 5 rest u
          else String a (format_go 0 rest u)
      end
  end.

Definition repr (v : pyval) : string :=
  match v with
  | PList _ => "[...]"
  | _ => "{...}"
  end.

#[export] Instance runtime : JsonLib := {|
  frame := text;
  json_dumps := dumps;
  json_loads := loads;
  json_loads_dumps := λ v, eq_refl;
  repr_container := repr;
  format_uuid := format_go 0;
|}.

(** The session of a client started without options, once connected. *)
Definition connected : QdbRepl.repl :=
  (QdbRepl.preloop (QdbRepl.init None None None)).2.

(** The frame of an event with a tag and a payload. *)
Definition event (tag : string) (payload : pyval) : text :=
  Doc (PDict {[ "e" := PStr tag; "p" := payload ]}).

(** A frame of the stack event, with the three fields. *)
Definition stack_frame (file_ : string) (line : Z) (code : string) : pyval :=
  PDict {[ "file" := PStr file_; "line" := PInt line; "code" := PStr code ]}.

End Model.

(** ** Inputs named by the specification *)

Module Inputs.

(** The double quote character. *)
Definition dquote : string := String (Ascii.ascii_of_nat 34) EmptyString.

(** The three [break] lines of the specification; the last one is
    [break a.py 10 f "x>1"]. *)
Definition break_lines : list string :=
  [ "break a.py 10";
    "break a.py 10 f";
    "break a.py 10 f " ++ dquote ++ "x>1" ++ dquote ].

(** The commands that want an argument, and the name each one reports
    itself under. *)
Definition argument_commands : list (string * string) :=
  [ ("break", "b(reak)"); ("b", "b(reak)"); ("tbreak", "b(reak)");
    ("clear", "cl(ear)"); ("cl", "cl(ear)");
    ("watch", "w(atch)"); ("w", "w(atch)");
    ("unwatch", "unw(atch)"); ("unw", "unw(atch)");
    ("list", "l(ist)"); ("l", "l(ist)") ].

(** What [quit] prints on a mode it does not know. *)
Definition quit_error : string :=
  "*** error: disable: argument must be 'soft' or 'hard'".

(** The tags [ServerPrinter] has an [event_] method for. *)
Definition event_tags : list string :=
  [ "print"; "list"; "stack"; "watchlist"; "breakpoints"; "error"; "return" ].

End Inputs.
Export Inputs.

(** ** Relations between the states of a computation *)

Module Hoare.

(** [m] takes every state to a state that is [R]-related to it, whether
    it returns or raises. *)
Definition within {S A : Type} (R : relation S) (m : M S A) : Prop :=
  ∀ s, R s (m s).2.

End Hoare.
Export Hoare.

(** ** Text *)

Module Text.

(** A string with a character that is not whitespace. *)
Fixpoint nonblank (s : string) : bool :=
  match s with
  | EmptyString => false
  | String a s' => negb (Ascii.is_space a) || nonblank s'
  end.

End Text.
Export Text.

(** ** Tables of commands and events *)

Module Tables.

(** The commands that take no argument, and the tag each one sends. *)
Definition plain_commands : list (string * string) :=
  [ ("step", "step"); ("s", "step");
    ("return", "return"); ("r", "return");
    ("next", "next"); ("n", "next");
    ("until", "until"); ("unt", "until");
    ("continue", "continue"); ("c", "continue") ].

(** The tags of the frames a command can send. [set_break] is not one
    of them: [do_break] raises before it sends. *)
Definition command_tags : list string :=
  [ "step"; "return"; "next"; "until"; "continue"; "set_watch";
    "clear_watch"; "clear_break"; "list"; "disable"; "eval" ].

(** What the dispatcher does, on the file [f], with an event of each
    tag that has no payload. *)
Definition without_payload (f : list string) : list (string * ((unit + exn) * list string)) :=
  [ ("print", (inr TypeError, f));
    ("list", (inl (), f ++ ["None"]));
    ("stack", (inr TypeError, f));
    ("watchlist", (inr TypeError, f ++ ["watchlist: ["]));
    ("breakpoints", (inl (), f));
    ("error", (inr TypeError, f));
    ("return", (inl (), f ++ ["--> returning with None"])) ]%list.

End Tables.
Export Tables.

(** ** The session of a client *)

Module Client.
Section Client.
Context `{JsonLib}.
Import QdbRepl.

(** The effects that stay on the terminal of the client. *)
Definition is_local (e : effect) : bool :=
  match e with
  | EPrint _ | EHelp _ => true
  | _ => false
  end.

(** [s'] has the options, the connection and the trace file of [s],
    and is stopped if [s] is. *)
Definition same_session (s s' : repl) : Prop :=
  auth_msg s' = auth_msg s ∧ wsaddress s' = wsaddress s ∧ uuid s' = uuid s
  ∧ filename s' = filename s ∧ _ws s' = _ws s
  ∧ (_stop s = true → _stop s' = true).

(** [m] on a session that is not connected, against [m] on the same
    session once connected to [url]: the first stays unconnected and
    local; the two runs agree, or the connected one goes on to send a
    frame where the other raised [AttributeError]. *)
Definition offline_of (url : string) {A : Type} (off on : (A + exn) * repl)
    (st : repl) : Prop :=
  _ws off.2 = None
  ∧ (∃ tail, log off.2 = (log st ++ tail)%list
             ∧ Forall (λ e, is_local e = true) tail)
  ∧ (off.1 = on.1 ∧ on.2 = set_ws (Some url) off.2
     ∨ off.1 = inr AttributeError
       ∧ ∃ w post, log on.2 = (log off.2 ++ ESend w :: post)%list).

(** [m] grows the log, and on every session that is not connected it
    compares in this way with its run on the connected session. *)
Definition twin {A : Type} (m : M repl A) : Prop :=
  grows m
  ∧ ∀ st url, _ws st = None → offline_of url (m st) (m (set_ws (Some url) st)) st.

(** What was done from [s] to [s'] was local or the sending of a
    command, whose frame is the encoding of one of the tags. *)
Definition is_command (e : effect) : Prop :=
  match e with
  | ESend w => ∃ tag payload, tag ∈ command_tags ∧ w = fmt_msg tag payload
  | EPrint _ | EHelp _ => True
  | _ => False
  end.

Definition commands_only (s s' : repl) : Prop :=
  ∃ tail, log s' = (log s ++ tail)%list ∧ Forall is_command tail.

(** A word made of identifier characters only. *)
Fixpoint identifier (s : string) : bool :=
  match s with
  | EmptyString => true
  | String a s' => identchar a && identifier s'
  end.

(** What follows a command word does not go on with an identifier
    character. *)
Definition ends_word (tl : string) : Prop :=
  match tl with
  | EmptyString => True
  | String a _ => identchar a = false
  end.

Definition same_lastcmd (s s' : repl) : Prop := lastcmd s' = lastcmd s.


(** The line of the watch list for a name and its value. *)
Definition watched_line (entry : pyval * pyval) : string :=
  "  > " ++ to_str entry.1 ++ ": " ++ to_str entry.2.

(** [item] is a dict that holds the name and the value of [entry]. *)
Definition is_watched (item : pyval) (entry : pyval * pyval) : Prop :=
  ∃ d, item = PDict d ∧ d !! "name" = Some entry.1 ∧ d !! "value" = Some entry.2.

(** What leaves the program: an exception of the client, or the
    [NameError] of a name that is not bound. *)
Inductive failure : Type :=
| Raised (e : exn)
| NameError.

(** The [__main__] block: the options of the command line go into a
    fresh [QdbRepl], and the command loop runs. The module does not
    import [os]: the [os.remove(repl.filename)] that follows a loop that
    returned raises [NameError]. *)
Definition main (ws_address uuid auth_msg : option string) (lines : list string)
    : (unit + failure) * repl :=
  match cmdloop lines (init ws_address uuid auth_msg) with
  | (inl _, st) => (inr NameError, st)
  | (inr e, st) => (inr (Raised e), st)
  end.

End Client.
End Client.
Export Client.

(** * Properties *)

Import QdbRepl ServerPrinter.

(** ** The message codec *)

Section Codec.
Context `{JsonLib}.

Lemma fmt_msg_falsy (event : string) (payload : pyval) :
  truthy payload = false →
  fmt_msg event payload = json_dumps (PDict {[ "e" := PStr event ]}).
Proof. intros Hp. unfold fmt_msg. by rewrite Hp. Qed.

Lemma fmt_msg_truthy (event : string) (payload : pyval) :
  truthy payload = true →
  fmt_msg event payload =
  json_dumps (PDict {[ "e" := PStr event; "p" := payload ]}).
Proof. intros Hp. unfold fmt_msg. by rewrite Hp. Qed.

Lemma truthy_dict_insert (k : string) (v : pyval) (d : gmap string pyval) :
  truthy (PDict (<[k := v]> d)) = true.
Proof.
  cbn. rewrite bool_decide_eq_false_2; [done|]. apply insert_non_empty.
Qed.

Lemma decode_dumps (d : gmap string pyval) (e : pyval) :
  d !! "e" = Some e →
  decode (json_dumps (PDict d)) = Some (e, dict_get d "p").
Proof.
  intros He. unfold decode. rewrite json_loads_dumps. cbn. by rewrite He.
Qed.

(** What the reader makes of the two shapes of envelope. *)
Lemma decode_envelope (tag : string) :
  decode (json_dumps (PDict {[ "e" := PStr tag ]})) = Some (PStr tag, PNone).
Proof. by rewrite (decode_dumps _ (PStr tag)). Qed.

Lemma decode_envelope_payload (tag : string) (payload : pyval) :
  decode (json_dumps (PDict {[ "e" := PStr tag; "p" := payload ]}))
  = Some (PStr tag, payload).
Proof. by rewrite (decode_dumps _ (PStr tag)). Qed.

(** C5. For every tag, a command without payload is encoded as the
    envelope whose only field is ["e"], holding the tag: the envelope
    has no ["p"] field. Decoding the encoding gives the tag back, and an
    event in which the payload is absent. *)
Theorem C5_no_payload_no_field (tag : string) :
  fmt_msg tag PNone = json_dumps (PDict {[ "e" := PStr tag ]})
  ∧ dom ({[ "e" := PStr tag ]} : gmap string pyval) = {[ "e" ]}
  ∧ ({[ "e" := PStr tag ]} : gmap string pyval) !! "p" = None
  ∧ json_loads (fmt_msg tag PNone) = Some (PDict {[ "e" := PStr tag ]})
  ∧ decode (fmt_msg tag PNone) = Some (PStr tag, PNone).
Proof.
  rewrite fmt_msg_falsy by done. split_and!.
  - done.
  - apply dom_singleton_L.
  - done.
  - apply json_loads_dumps.
  - by rewrite (decode_dumps _ (PStr tag)).
Qed.

(** C2, amended. For every tag and payload, decoding the encoding gives
    the tag back; it gives the payload back when the payload is truthy,
    and [None] (the payload is absent from the frame) when the payload is
    falsy: [None], [False], [0], the empty string, list or dict. *)
Theorem C2_round_trip_truthy (tag : string) (payload : pyval) :
  decode (fmt_msg tag payload)
  = Some (PStr tag, if truthy payload then payload else PNone).
Proof.
  destruct (truthy payload) eqn:Hp.
  - rewrite fmt_msg_truthy by done. apply decode_envelope_payload.
  - rewrite fmt_msg_falsy by done. apply decode_envelope.
Qed.

End Codec.

(** ** The command builder *)

Section Builder.
Context `{JsonLib}.

Lemma truthy_str (s : string) : truthy (PStr s) = bool_decide (s ≠ "").
Proof.
  cbn. destruct (String.eqb_spec s "") as [->|Hs]; cbn.
  - by rewrite bool_decide_eq_false_2; [|intros ?].
  - by rewrite bool_decide_eq_true_2.
Qed.

Lemma truthy_str_ne (s : string) : s ≠ "" → truthy (PStr s) = true.
Proof. intros Hs. rewrite truthy_str. by apply bool_decide_eq_true_2. Qed.

Lemma split_nonempty (arg : string) : split arg ≠ [] → arg ≠ "".
Proof. intros Hs ->. by apply Hs. Qed.

(** A [for] loop whose body assigns to an item of a tuple raises on
    its first turn, and runs no turn over an empty sequence. *)
Lemma for_each_tuple_setitem (ps : list (pyval * pyval)) (st : repl) :
  for_each ps (λ pair, tuple_setitem pair 0 (pair.2)) st
  = (if bool_decide (ps = []) then inl () else inr TypeError, st).
Proof. by destruct ps. Qed.

(** [parse_break_arg] on two tokens: both optional fields are [None]. *)
Lemma parse_break_arg_two (arg f l : string) (st : repl) :
  split arg = [f; l] →
  parse_break_arg (PStr arg) st
  = (inl (PDict {[ "file" := PStr f; "line" := PStr l;
                   "func" := PNone; "cond" := PNone ]}), st).
Proof. intros Hs. unfold parse_break_arg, bind, lift. cbn. by rewrite Hs. Qed.

(** [parse_break_arg] on three tokens or more: the assignment to the
    pair raises, whatever the tokens. *)
Lemma parse_break_arg_optional (arg : string) (st : repl) :
  (3 ≤ length (split arg))%nat →
  parse_break_arg (PStr arg) st = (inr TypeError, st).
Proof.
  intros Hs. unfold parse_break_arg, bind, lift. cbn.
  destruct (split arg) as [|f [|l [|x xs]]]; cbn in *; try lia.
  done.
Qed.

(** [do_break] on an argument never reaches [parse_break_arg]: the call
    passes [temp] as a second argument. *)
Lemma do_break_raises (arg : string) (temp : bool) (st : repl) :
  arg ≠ "" → do_break arg temp st = (inr TypeError, st).
Proof. intros Ha. unfold do_break. by rewrite truthy_str_ne. Qed.

(** C1. What the code does on the [break] lines: for every argument
    that is not empty, [do_break] raises [TypeError] and leaves the
    session as it was; the three lines of the specification raise
    [TypeError] out of the command loop and send nothing. *)
Theorem C1_break_raises_TypeError (st : repl) :
  (∀ arg temp, arg ≠ "" → do_break arg temp st = (inr TypeError, st))
  ∧ (∀ line, line ∈ break_lines →
       (onecmd line st).1 = inr TypeError
       ∧ log ((onecmd line st).2) = log st).
Proof.
  split; [intros; by apply do_break_raises|].
  intros line Hl. destruct st.
  repeat (apply elem_of_cons in Hl as [->|Hl];
          [vm_compute; split; reflexivity|]).
  by apply elem_of_nil in Hl.
Qed.

(** [do_list] with a file and at least one more token: the assignment
    to the pair raises before anything is sent. *)
Lemma do_list_optional (arg : string) (st : repl) :
  (2 ≤ length (split arg))%nat → do_list arg st = (inr TypeError, st).
Proof.
  intros Hs. unfold do_list.
  rewrite truthy_str_ne
    by (apply split_nonempty; intros E; rewrite E in Hs; cbn in Hs; lia).
  unfold bind, lift. cbn.
  destruct (split arg) as [|f [|x xs]]; cbn in *; try lia. done.
Qed.

(** C4. What the code does on the [list] lines: on a connected session
    [list a.py] sends the tag [list] with the file and two [None]
    fields; [list a.py 1 20], like every argument of two tokens or
    more, raises [TypeError] and sends nothing. *)
Theorem C4_list_file_only (st : repl) (url : string) :
  _ws st = Some url →
  onecmd "list a.py" st
  = (inl false,
     add_log (ESend (json_dumps (PDict {[
         "e" := PStr "list";
         "p" := PDict {[ "file" := PStr "a.py";
                         "start" := PNone; "end" := PNone ]} ]})))
       (set_lastcmd "list a.py" st))
  ∧ onecmd "list a.py 1 20" st
    = (inr TypeError, set_lastcmd "list a.py 1 20" st)
  ∧ (∀ arg, (2 ≤ length (split arg))%nat → do_list arg st = (inr TypeError, st)).
Proof.
  intros Hws. split_and!; [| |intros; by apply do_list_optional];
    destruct st; cbn in Hws; subst; by vm_compute.
Qed.

(** [do_quit] on a mode that is neither empty, [soft] nor [hard]. *)
Lemma do_quit_bad_mode (arg : string) (st : repl) :
  arg ≠ "" → arg ≠ "soft" → arg ≠ "hard" →
  do_quit arg st = (inl (), set_stop true (add_log (EPrint quit_error) st)).
Proof.
  intros H0 Hs Hh. unfold do_quit. rewrite truthy_str_ne by done.
  apply String.eqb_neq in Hs, Hh. by rewrite Hs, Hh.
Qed.

(** C6. On a connected session, [quit] and [quit soft] send the tag
    [disable] with the payload [soft], [quit hard] sends it with the
    payload [hard], and [quit bogus], like every other mode, prints the
    error and sends nothing. *)
Theorem C6_quit_modes (st : repl) (url : string) :
  _ws st = Some url →
  let disable mode :=
    ESend (json_dumps (PDict {[ "e" := PStr "disable"; "p" := PStr mode ]})) in
  onecmd "quit" st
  = (inl false, set_stop true (add_log (disable "soft") (set_lastcmd "quit" st)))
  ∧ onecmd "quit soft" st
    = (inl false,
       set_stop true (add_log (disable "soft") (set_lastcmd "quit soft" st)))
  ∧ onecmd "quit hard" st
    = (inl false,
       set_stop true (add_log (disable "hard") (set_lastcmd "quit hard" st)))
  ∧ onecmd "quit bogus" st
    = (inl false,
       set_stop true (add_log (EPrint quit_error) (set_lastcmd "quit bogus" st)))
  ∧ (∀ arg, arg ≠ "" → arg ≠ "soft" → arg ≠ "hard" →
       do_quit arg st = (inl (), set_stop true (add_log (EPrint quit_error) st))).
Proof.
  intros Hws disable. split_and!; [| | | |intros; by apply do_quit_bad_mode];
    destruct st; cbn in Hws; subst; by vm_compute.
Qed.

(** One turn of the command loop. *)
Lemma loop_cons (line : string) (lines : list string) (st : repl) :
  loop (line :: lines) st
  = match onecmd line st with
    | (inl stop, st') => if stop || _stop st' then (inl (), st') else loop lines st'
    | (inr e, st') => (inr e, st')
    end.
Proof.
  cbn [loop]. unfold bind at 1. destruct (onecmd line st) as [[stop|e] st']; [|done].
  unfold postcmd, bind, gets, ret. by destruct (stop || _stop st').
Qed.

(** The line ['EOF'] that ends the input always stops the loop: the
    loop never asks for a line after the last one. *)
Lemma onecmd_EOF_stops (st st' : repl) (stop : bool) :
  (b <- onecmd "EOF" ;; postcmd b "EOF") st = (inl stop, st') → stop = true.
Proof.
  destruct st as [a w u f [ws|] s l lg]; vm_compute; intros Heq; by simplify_eq.
Qed.

(** A command that wants an argument and gets none. *)
Lemma onecmd_missing_argument (cmd name : string) (st : repl) :
  (cmd, name) ∈ argument_commands →
  onecmd cmd st
  = (inl false,
     add_log (EPrint ("*** error: " ++ name ++ ": missing argument(s)"))
             (set_lastcmd cmd st)).
Proof.
  intros Hc. destruct st.
  repeat (apply elem_of_cons in Hc as [[= -> ->]|Hc]; [by vm_compute|]).
  by apply elem_of_nil in Hc.
Qed.

Lemma onecmd_quit_bogus (st : repl) :
  onecmd "quit bogus" st
  = (inl false,
     set_stop true (add_log (EPrint quit_error) (set_lastcmd "quit bogus" st))).
Proof. destruct st. by vm_compute. Qed.

(** C3, amended. A command that wants an argument and gets none prints
    its error, sends nothing, and the loop goes on with the next line.
    [quit] with a mode other than [soft] and [hard] prints its error and
    sends nothing as well, but it sets the stop flag like every [quit]:
    the loop ends there, and the lines that follow are not read. *)
Theorem C3_user_input_errors (st : repl) :
  (∀ cmd name rest, (cmd, name) ∈ argument_commands → _stop st = false →
     loop (cmd :: rest) st
     = loop rest (add_log (EPrint ("*** error: " ++ name ++ ": missing argument(s)"))
                          (set_lastcmd cmd st)))
  ∧ (∀ arg, arg ≠ "" → arg ≠ "soft" → arg ≠ "hard" →
       do_quit arg st = (inl (), set_stop true (add_log (EPrint quit_error) st)))
  ∧ (∀ rest,
       loop ("quit bogus" :: rest) st
       = (inl (), set_stop true (add_log (EPrint quit_error)
                                         (set_lastcmd "quit bogus" st)))).
Proof.
  split_and!.
  - intros cmd name rest Hc Hstop.
    rewrite loop_cons, (onecmd_missing_argument cmd name) by done.
    cbn [_stop add_log set_lastcmd orb]. by rewrite Hstop.
  - intros. by apply do_quit_bad_mode.
  - intros rest. by rewrite loop_cons, onecmd_quit_bogus.
Qed.

End Builder.

(** ** The session *)

Section Session.
Context `{JsonLib}.

Lemma grows_ret {A} (a : A) : grows (ret a).
Proof. intros st. exists []. by rewrite app_nil_r. Qed.

Lemma grows_raise {A} (e : exn) : grows (raise (A := A) e).
Proof. intros st. exists []. by rewrite app_nil_r. Qed.

Lemma grows_lift {A} (r : A + exn) : grows (lift r).
Proof. intros st. exists []. by rewrite app_nil_r. Qed.

Lemma grows_gets {A} (f : repl → A) : grows (gets f).
Proof. intros st. exists []. by rewrite app_nil_r. Qed.

Lemma grows_modify (f : repl → repl) :
  (∀ st, log (f st) = log st) → grows (modify f).
Proof. intros Hf st. exists []. cbn. by rewrite Hf, app_nil_r. Qed.

Lemma grows_emit (e : effect) : grows (emit e).
Proof. intros st. by exists [e]. Qed.

Lemma grows_bind {A B} (m : M repl A) (k : A → M repl B) :
  grows m → (∀ a, grows (k a)) → grows (bind m k).
Proof.
  intros Hm Hk st. unfold bind. destruct (Hm st) as [t1 H1].
  destruct (m st) as [[a|e] st']; cbn in *.
  - destruct (Hk a st') as [t2 H2]. exists (t1 ++ t2)%list.
    rewrite H2, H1. by rewrite <- app_assoc.
  - by exists t1.
Qed.

Lemma grows_for_each {A} (xs : list A) (body : A → M repl unit) :
  (∀ x, grows (body x)) → grows (for_each xs body).
Proof.
  intros Hb. induction xs as [|x xs IH]; cbn [for_each].
  - apply grows_ret.
  - apply grows_bind; [apply Hb | intros _; apply IH].
Qed.

Create HintDb grows.

#[local] Hint Resolve grows_ret grows_raise grows_lift grows_gets
  grows_emit : grows.

(** Takes a computation apart along its binds and branches. *)
Ltac grows :=
  repeat first
    [ apply grows_bind; [|intros ?]
    | apply grows_for_each; intros ?
    | apply grows_modify; by intros []
    | solve [auto with grows]
    | match goal with
      | |- grows (if ?b then _ else _) => destruct b
      | |- grows (match ?x with _ => _ end) => destruct x
      end ].

Lemma grows_send_command (event : string) (payload : pyval) :
  grows (send_command event payload).
Proof. unfold send_command, send. grows. Qed.

Lemma grows_print (line : string) : grows (print line).
Proof. apply grows_emit. Qed.

#[local] Hint Resolve grows_send_command grows_print : grows.

Lemma grows_parse_break_arg (arg : pyval) : grows (parse_break_arg arg).
Proof. unfold parse_break_arg, tuple_setitem. grows. Qed.

#[local] Hint Resolve grows_parse_break_arg : grows.

Lemma grows_handlers :
  Forall (λ entry, ∀ arg, grows (entry.2 arg)) handlers.
Proof.
  repeat constructor; intros arg; cbn [snd];
    unfold do_tbreak, do_step, do_return, do_next, do_until, do_continue,
      do_watch, do_unwatch, do_break, do_clear, do_list, do_quit,
      call_parse_break_arg, missing_argument, tuple_setitem; grows.
Qed.

Lemma grows_getattr (name : string) (func : string → M repl unit) (arg : string) :
  QdbRepl.getattr name = Some func → grows (func arg).
Proof.
  unfold QdbRepl.getattr. intros Hg%elem_of_list_to_map_2.
  by apply (proj1 (Forall_forall _ _) grows_handlers (name, func)).
Qed.

Lemma grows_onecmd_line (line : string) : grows (onecmd_line line).
Proof.
  unfold onecmd_line, default_.
  destruct (parseline line) as [[[cmd|] arg] l]; [|grows].
  apply grows_bind; [grows|intros _]. apply grows_bind; [grows|intros _].
  apply grows_bind; [|intros _; grows].
  destruct (String.eqb cmd ""); [grows|].
  destruct (QdbRepl.getattr _) eqn:Hg; [by eapply grows_getattr | grows].
Qed.

Lemma grows_onecmd (line : string) : grows (onecmd line).
Proof.
  unfold onecmd, emptyline. pose proof grows_onecmd_line. grows.
Qed.

Lemma grows_loop (lines : list string) : grows (loop lines).
Proof.
  pose proof grows_onecmd.
  induction lines as [|line lines IH]; cbn [loop]; unfold postcmd; grows.
Qed.

(** What [preloop] does on a fresh object, whatever the options: an
    option that is [None] or empty takes its default. *)
Lemma preloop_init (addr u auth : option string) :
  let addr' := if truthy (opt_str addr) then default "" addr
               else DEFAULT_WS_ADDRESS in
  let u' := if truthy (opt_str u) then default "" u else DEFAULT_UUID in
  (preloop (QdbRepl.init addr u auth)).1 = inl ()
  ∧ log ((preloop (QdbRepl.init addr u auth)).2)
    = [ EConnect (format_uuid addr' u');
        ESend (fmt_msg "start" (PStr (default "" auth)));
        ESpawn (FILE_FORMAT u');
        EPrint ("qdb connected: " ++ FILE_FORMAT u') ].
Proof.
  destruct addr as [[|??]|], u as [[|??]|], auth as [[|??]|];
    split; reflexivity.
Qed.

(** C9, amended. Whatever the options and the lines typed, the first
    two things the client does are to connect and to send the encoding
    of [start] with the auth string, before any command of the loop.
    The frame carries the auth string as its payload when the string is
    not empty; for the empty string, which is the default, it has no
    payload field. *)
Theorem C9_start_after_connect (addr u auth : option string) (lines : list string) :
  let a := default "" auth in
  (∃ url tail,
     log ((cmdloop lines (QdbRepl.init addr u auth)).2)
     = EConnect url :: ESend (fmt_msg "start" (PStr a)) :: tail)
  ∧ fmt_msg "start" (PStr a)
    = json_dumps (PDict (if bool_decide (a = "")
                         then {[ "e" := PStr "start" ]}
                         else {[ "e" := PStr "start"; "p" := PStr a ]}))
  ∧ decode (fmt_msg "start" (PStr a))
    = Some (PStr "start", if bool_decide (a = "") then PNone else PStr a).
Proof.
  intros a. split_and!.
  - destruct (preloop_init addr u auth) as [Hpre Hlog].
    unfold cmdloop, bind.
    destruct (preloop (QdbRepl.init addr u auth)) as [[[]|e] st];
      cbn [fst snd] in *; [|done].
    destruct (grows_loop lines st) as [tail Htail].
    rewrite Htail, Hlog. by do 2 eexists.
  - unfold fmt_msg. rewrite truthy_str. repeat case_bool_decide; naive_solver.
  - case_bool_decide as Ha.
    + rewrite fmt_msg_falsy by (by rewrite Ha). apply decode_envelope.
    + rewrite fmt_msg_truthy by (by apply truthy_str_ne).
      apply decode_envelope_payload.
Qed.

End Session.

(** ** The event dispatcher *)

Section Dispatcher.
Context `{JsonLib}.

Lemma getattr_unknown (tag : string) :
  tag ∉ event_tags → ServerPrinter.getattr ("event_" ++ tag) = None.
Proof.
  intros Htag. unfold ServerPrinter.getattr.
  apply not_elem_of_list_to_map. intros Hin. apply Htag. cbn in Hin.
  repeat (apply elem_of_cons in Hin as [Heq|Hin];
          [apply (inj (String.app "event_")) in Heq; subst; set_solver|]).
  by apply elem_of_nil in Hin.
Qed.

(** A process that left the loop stays as it is. *)
Lemma step_halted (p : printer) : state p ≠ Reading → step p = None.
Proof. unfold step. by destruct (state p). Qed.

Lemma run_halted (n : nat) (p : printer) : step p = None → run n p = p.
Proof. intros Hp. destruct n; [done|]. cbn. by rewrite Hp. Qed.

Lemma trace_halted (n : nat) (p : printer) : step p = None → trace n p = [p].
Proof. intros Hp. destruct n; [done|]. cbn. by rewrite Hp. Qed.

Lemma trace_head (n : nat) (p : printer) : ∃ tl, trace n p = p :: tl.
Proof. destruct n; cbn; [by eexists|]. destruct (step p); by eexists. Qed.

(** The turn that finds the stream ended. *)
Lemma step_end (f : file) (sock : list (option frame)) :
  ended sock →
  step (Printer Reading f sock) = Some (Printer Terminated f (drop 1 sock)).
Proof.
  intros [|rest|w rest Hw]; unfold step; cbn [state socket _file get_events];
    [done..|]. by rewrite Hw.
Qed.

(** The turn that renders an event. *)
Lemma step_event (f f' : file) (w : frame) (ev : pyval) (rest : list (option frame)) :
  json_loads w = Some ev → dispatch ev f = (inl (), f') →
  step (Printer Reading f (Some w :: rest)) = Some (Printer Reading f' rest).
Proof.
  intros Hw Hev. unfold step. cbn [state socket _file get_events].
  rewrite Hw. cbn [fst]. by rewrite Hev.
Qed.

(** The turn in which a renderer raises. *)
Lemma step_raise (f f' : file) (w : frame) (ev : pyval) (e : exn)
    (rest : list (option frame)) :
  json_loads w = Some ev → dispatch ev f = (inr e, f') →
  step (Printer Reading f (Some w :: rest)) = Some (Printer (Crashed e) f' rest).
Proof.
  intros Hw Hev. unfold step. cbn [state socket _file get_events].
  rewrite Hw. cbn [fst]. by rewrite Hev.
Qed.

Lemma terminations_cons (p q : printer) (tl : list printer) :
  terminations (p :: q :: tl)
  = (match state p, state q with
     | Terminated, _ => 0
     | _, Terminated => 1
     | _, _ => 0
     end + terminations (q :: tl))%nat.
Proof. reflexivity. Qed.

(** No run enters [Terminated] twice. *)
Lemma terminations_le_1 (n : nat) (p : printer) :
  (terminations (trace n p) ≤ 1)%nat.
Proof.
  revert p. induction n as [|n IH]; intros p; cbn [trace]; [cbn; lia|].
  destruct (step p) as [q|] eqn:Hstep; [|cbn; lia].
  destruct (trace_head n q) as [tl Htl].
  rewrite Htl, terminations_cons, <- Htl.
  destruct (state p) eqn:Hp; try (rewrite step_halted in Hstep by (rewrite Hp; done); done).
  destruct (state q) eqn:Hq.
  - specialize (IH q). lia.
  - rewrite trace_halted by (apply step_halted; by rewrite Hq). cbn. lia.
  - rewrite trace_halted by (apply step_halted; by rewrite Hq). cbn. lia.
Qed.

(** C7, amended. An event whose tag has no [event_] method is rendered
    as the line [*** error: <tag>: unknown event type], nothing else is
    written, no exception is raised, and the process stays in the loop,
    ready for the next frame. *)
Theorem C7_unknown_event_line (tag : string) (d : gmap string pyval) (f : file)
    (w : frame) (rest : list (option frame)) :
  tag ∉ event_tags →
  d !! "e" = Some (PStr tag) →
  json_loads w = Some (PDict d) →
  let line := "*** error: " ++ tag ++ ": unknown event type" in
  dispatch (PDict d) f = (inl (), (f ++ [line])%list)
  ∧ step (Printer Reading f (Some w :: rest))
    = Some (Printer Reading (f ++ [line])%list rest).
Proof.
  intros Htag He Hw line.
  assert (dispatch (PDict d) f = (inl (), (f ++ [line])%list)) as Hd.
  { unfold dispatch, bind, lift. cbn. rewrite He. cbn.
    by rewrite getattr_unknown. }
  split; [done|]. by eapply step_event.
Qed.

(** A run over frames that all decode, up to the turn that finds the
    stream ended, or to the turn in which the dispatcher raises. *)
Lemma run_stream (pre : list frame) (events : list pyval)
    (tail : list (option frame)) (f : file) (n : nat) :
  Forall2 (λ w ev, json_loads w = Some ev) pre events →
  ended tail →
  (length pre < n)%nat →
  let p := Printer Reading f ((Some <$> pre) ++ tail) in
  match for_each events dispatch f with
  | (inl _, f') =>
      run n p = Printer Terminated f' (drop 1 tail)
      ∧ terminations (trace n p) = 1%nat
  | (inr e, f') =>
      ∃ rest, run n p = Printer (Crashed e) f' rest
              ∧ terminations (trace n p) = 0%nat
  end.
Proof.
  intros Hdec Hend. revert f n.
  induction Hdec as [|w ev pre events Hw _ IH]; intros f n Hn;
    (destruct n as [|n]; [cbn in Hn; lia|]);
    cbn [fmap list_fmap app run trace for_each].
  - unfold ret. rewrite step_end by done.
    rewrite run_halted, trace_halted by (by apply step_halted). done.
  - unfold bind at 1. destruct (dispatch ev f) as [[[]|e] f1] eqn:Hd.
    + rewrite (step_event f f1 w ev) by done.
      specialize (IH f1 n). cbn zeta in IH.
      destruct (trace_head n (Printer Reading f1 ((Some <$> pre) ++ tail)))
        as [tl Htl].
      rewrite Htl, terminations_cons, <- Htl. cbn [state].
      apply IH. cbn in Hn. lia.
    + rewrite (step_raise f f1 w ev e) by done.
      rewrite run_halted, trace_halted by (by apply step_halted).
      by eexists.
Qed.

(** C8, amended. Take a process in the loop, frames that all decode,
    and then the end of the stream: the connection closed, [recv]
    raising, or a frame that is not JSON. If the dispatcher renders
    every one of the frames, the turn that finds the stream ended takes
    the process to [Terminated]; the run entered [Terminated] once, and
    from then on the process does not move, however many more turns
    are granted and whatever is left in the socket: the trace file is
    what it was after the last rendered frame. If the dispatcher raises
    on one of the frames, the process dies there: it never enters
    [Terminated], and the trace file is what the raising turn left. *)
Theorem C8_terminates_once (pre : list frame) (events : list pyval)
    (tail : list (option frame)) (f : file) (n : nat) :
  Forall2 (λ w ev, json_loads w = Some ev) pre events →
  ended tail →
  (length pre < n)%nat →
  let p := Printer Reading f ((Some <$> pre) ++ tail) in
  match for_each events dispatch f with
  | (inl _, f') =>
      run n p = Printer Terminated f' (drop 1 tail)
      ∧ terminations (trace n p) = 1%nat
      ∧ ∀ m, run m (Printer Terminated f' (drop 1 tail))
             = Printer Terminated f' (drop 1 tail)
  | (inr e, f') =>
      ∃ rest, run n p = Printer (Crashed e) f' rest
              ∧ terminations (trace n p) = 0%nat
              ∧ ∀ m, run m (Printer (Crashed e) f' rest)
                     = Printer (Crashed e) f' rest
  end.
Proof.
  intros Hdec Hend Hn p.
  pose proof (run_stream pre events tail f n Hdec Hend Hn) as Hrun.
  cbn zeta in Hrun. fold p in Hrun.
  destruct (for_each events dispatch f) as [[[]|e] f'].
  - destruct Hrun as [Hrun Hcount]. split_and!; [done..|].
    intros m. by apply run_halted, step_halted.
  - destruct Hrun as (rest & Hrun & Hcount). exists rest. split_and!; [done..|].
    intros m. by apply run_halted, step_halted.
Qed.

(** [payload[-1]] gives an element of a list or a character of a string. *)
Lemma getitem_last_inl (payload x : pyval) :
  getitem_last payload = inl x →
  (∃ frames, payload = PList (frames ++ [x]))
  ∨ (∃ s c, payload = PStr s ∧ x = PStr c).
Proof.
  destruct payload as [| | |s|l|d]; cbn; try discriminate.
  - destruct (last_char s); [|discriminate]. intros [= <-]. right. eauto.
  - destruct (last l) as [y|] eqn:Hl; [|discriminate]. intros [= <-].
    apply last_Some in Hl as [l' ->]. left. eauto.
Qed.

(** What [event_stack] needs to return: a payload that is a list, not
    empty, whose last element is a dict with the three fields. *)
Lemma event_stack_inl (payload : pyval) (f f' : file) :
  event_stack payload f = (inl (), f') →
  ∃ frames d file_ line code,
    payload = PList (frames ++ [PDict d])
    ∧ d !! "file" = Some file_ ∧ d !! "line" = Some line
    ∧ d !! "code" = Some (PStr code)
    ∧ ∃ n, fmt_d line = inl n
      ∧ f' = (f ++ [("> " ++ to_str file_ ++ ":" ++ n)%string;
                        ("-> " ++ code)%string])%list.
Proof.
  unfold event_stack, bind, lift, writeln, modify.
  destruct (getitem_last payload) as [frame|e] eqn:Hlast; [|discriminate].
  destruct frame as [| | | | |d]; try discriminate. cbn.
  destruct (d !! "file") as [file_|] eqn:Hfile; [|discriminate].
  destruct (d !! "line") as [line|] eqn:Hline; [|discriminate].
  destruct (fmt_d line) as [n|] eqn:Hn; [|discriminate].
  destruct (d !! "code") as [[| | |code| |]|] eqn:Hcode; try discriminate.
  cbn. intros [= <-].
  apply getitem_last_inl in Hlast as [[frames ->]|(s & c & _ & [=])].
  exists frames, d, file_, line, code. split_and!; try done.
  exists n. split; [done|]. by rewrite <- app_assoc.
Qed.

(** C10. [event_stack] returns only on a payload that is a list with at
    least one element (whose last element is a dict holding the frame's
    fields). On the empty list [payload[-1]] raises [IndexError] and
    nothing is written; the exception is not caught, so the turn that
    dispatches such an event leaves the process dead, with the trace file
    as it was and the frames that follow never read. *)
Theorem C10_stack_payload_not_empty (f : file) :
  (∀ payload f', event_stack payload f = (inl (), f') →
     ∃ frames frame, payload = PList (frames ++ [frame]))
  ∧ event_stack (PList []) f = (inr IndexError, f)
  ∧ (∀ d w rest,
       json_loads w = Some (PDict d) →
       d !! "e" = Some (PStr "stack") → d !! "p" = Some (PList []) →
       step (Printer Reading f (Some w :: rest))
       = Some (Printer (Crashed IndexError) f rest)
       ∧ ∀ n, run n (Printer (Crashed IndexError) f rest)
              = Printer (Crashed IndexError) f rest).
Proof.
  split_and!.
  - intros payload f' Hok.
    apply event_stack_inl in Hok as (frames & d & _ & _ & _ & -> & _).
    eauto.
  - done.
  - intros d w rest Hw He Hp. split.
    + eapply step_raise; [done|].
      unfold dispatch, bind, lift. cbn. rewrite He. cbn.
      unfold dict_get. by rewrite Hp.
    + intros n. by apply run_halted.
Qed.

End Dispatcher.

(** ** Runs on the concrete runtime *)

Section Concrete.
Import Model.
#[local] Existing Instance Model.runtime.

(** C2 as stated fails on an empty payload: the encoding of the tag
    [start] with the empty string, which is what the client sends when
    no auth message is given, decodes to an absent payload. *)
Lemma C2_counterexample :
  decode (fmt_msg "start" (PStr "")) = Some (PStr "start", PNone)
  ∧ decode (fmt_msg "start" (PStr "")) ≠ Some (PStr "start", PStr "").
Proof. split; [reflexivity | discriminate]. Qed.

(** C9 as stated fails on the default, empty auth string: the frame of
    [start] that the client sends first has no payload field, so what
    it carries is not the auth string. *)
Lemma C9_counterexample :
  log ((cmdloop [] (QdbRepl.init None None None)).2) !! 1%nat
  = Some (ESend (Doc (PDict {[ "e" := PStr "start" ]})))
  ∧ decode (Doc (PDict {[ "e" := PStr "start" ]})) = Some (PStr "start", PNone)
  ∧ decode (Doc (PDict {[ "e" := PStr "start" ]})) ≠ Some (PStr "start", PStr "").
Proof. split_and!; [by vm_compute | reflexivity | discriminate]. Qed.

(** C3 as stated fails on [quit bogus]: the loop does not go on to the
    next line, it ends, and [step] is never sent. *)
Lemma C3_counterexample :
  let st := (onecmd "quit bogus" connected).2 in
  loop ["quit bogus"; "step"] connected = (inl (), st)
  ∧ log st = (log connected ++ [EPrint quit_error])%list
  ∧ loop ["quit bogus"; "step"] connected ≠ loop ["step"] st.
Proof. vm_compute. split_and!; [reflexivity | reflexivity | discriminate]. Qed.

(** C8 as stated fails on a frame that is JSON but not a tagged
    envelope: the frame [[]] does not decode to an event, the stream
    ends after it, and the process is dead of [TypeError] without ever
    entering [Terminated]. *)
Lemma C8_counterexample :
  let sock := [Some (Doc (PList []))] in
  decode (Doc (PList [])) = None
  ∧ state (ServerPrinter sock) = Crashed TypeError
  ∧ terminations (trace (S (length sock)) (ServerPrinter.init sock)) = 0%nat
  ∧ state (ServerPrinter sock) ≠ Terminated.
Proof. vm_compute. split_and!; [reflexivity..|discriminate]. Qed.

(** C7 as stated fails on the text of the line: what is written for the
    unknown tag [foo] starts with [*** error: ]. *)
Lemma C7_counterexample :
  dispatch (PDict {[ "e" := PStr "foo" ]}) []
  = (inl (), ["*** error: foo: unknown event type"])
  ∧ dispatch (PDict {[ "e" := PStr "foo" ]}) []
    ≠ (inl (), ["foo: unknown event type"]).
Proof. vm_compute. split; [reflexivity | discriminate]. Qed.

(** [break a.py 10] on the connected session. *)
Lemma C1_witness :
  do_break "a.py 10" false connected = (inr TypeError, connected)
  ∧ (onecmd "break a.py 10" connected).1 = inr TypeError
  ∧ log ((onecmd "break a.py 10" connected).2) = log connected.
Proof.
  destruct (C1_break_raises_TypeError connected) as [Hbreak Hline].
  split; [apply Hbreak; discriminate|].
  apply Hline. apply list_elem_of_here.
Defined.

(** A [watch] without argument, then [step]; and [quit bogus]. *)
Lemma C3_witness :
  loop ["watch"; "step"] connected
  = loop ["step"]
      (add_log (EPrint "*** error: w(atch): missing argument(s)")
               (set_lastcmd "watch" connected))
  ∧ do_quit "bogus" connected
    = (inl (), set_stop true (add_log (EPrint quit_error) connected)).
Proof.
  destruct (C3_user_input_errors connected) as (Hmissing & Hquit & _).
  split.
  - apply (Hmissing "watch" "w(atch)" ["step"]); [|reflexivity].
    do 5 apply list_elem_of_further. apply list_elem_of_here.
  - apply Hquit; discriminate.
Defined.

(** [list a.py 1 20] on the connected session. *)
Lemma C4_witness :
  onecmd "list a.py 1 20" connected
  = (inr TypeError, set_lastcmd "list a.py 1 20" connected).
Proof.
  exact (proj1 (proj2 (C4_list_file_only connected
    "ws://localhost:8002/debug_session/qdb" eq_refl))).
Defined.

(** [quit hard] on the connected session. *)
Lemma C6_witness :
  onecmd "quit hard" connected
  = (inl false,
     set_stop true
       (add_log (ESend (json_dumps (PDict {[ "e" := PStr "disable";
                                             "p" := PStr "hard" ]})))
                (set_lastcmd "quit hard" connected))).
Proof.
  exact (proj1 (proj2 (proj2 (C6_quit_modes connected
    "ws://localhost:8002/debug_session/qdb" eq_refl)))).
Defined.

(** The unknown tag [foo], with a frame left to read. *)
Lemma C7_witness :
  step (Printer Reading ["Tracing..."]
          [Some (Doc (PDict {[ "e" := PStr "foo" ]})); None])
  = Some (Printer Reading
            ["Tracing..."; "*** error: foo: unknown event type"] [None]).
Proof.
  refine (proj2 (C7_unknown_event_line "foo" {[ "e" := PStr "foo" ]}
    ["Tracing..."] (Doc (PDict {[ "e" := PStr "foo" ]})) [None] _ eq_refl eq_refl)).
  apply (bool_decide_unpack _). exact I.
Defined.

(** A listing, then a frame that is not JSON, then a frame that is never
    read. *)
Lemma C8_witness :
  let p := Printer Reading ["Tracing..."]
             [Some (event "list" (PStr "1 x = 1")); Some (Malformed "{");
              Some (event "list" (PStr "2 y = 2"))] in
  let final := Printer Terminated ["Tracing..."; "1 x = 1"]
                 [Some (event "list" (PStr "2 y = 2"))] in
  run 5 p = final
  ∧ terminations (trace 5 p) = 1%nat
  ∧ ∀ m, run m final = final.
Proof.
  refine (C8_terminates_once (H := runtime)
    [event "list" (PStr "1 x = 1")]
    [PDict {[ "e" := PStr "list"; "p" := PStr "1 x = 1" ]}]
    [Some (Malformed "{"); Some (event "list" (PStr "2 y = 2"))]
    ["Tracing..."] 5%nat _ _ _).
  - repeat constructor.
  - apply (ended_not_json (H := runtime)). reflexivity.
  - cbn. lia.
Defined.

(** A stack of one frame, and a stack event with an empty payload. *)
Lemma C10_witness :
  (∃ frames frame,
     PList [stack_frame "a.py" 7 "bar()"] = PList (frames ++ [frame]))
  ∧ step (Printer Reading ["Tracing..."]
            [Some (event "stack" (PList [])); Some (event "list" (PStr "1"))])
    = Some (Printer (Crashed IndexError) ["Tracing..."]
              [Some (event "list" (PStr "1"))]).
Proof.
  destruct (C10_stack_payload_not_empty ["Tracing..."]) as (Hok & _ & Hcrash).
  split.
  - apply (Hok _ ["Tracing..."; "> a.py:7"; "-> bar()"]). reflexivity.
  - apply (Hcrash {[ "e" := PStr "stack"; "p" := PList [] ]}); reflexivity.
Defined.

End Concrete.

(** * Further properties *)

(** ** Blank text *)

Section Blank.

Lemma nonblank_lstrip (s : string) : nonblank (lstrip s) = nonblank s.
Proof.
  induction s as [|a s IH]; [done|]. cbn.
  destruct (Ascii.is_space a) eqn:Ha; cbn; [done|]. by rewrite Ha.
Qed.

Lemma lstrip_blank (s : string) : nonblank s = false → lstrip s = "".
Proof.
  induction s as [|a s IH]; [done|]. cbn.
  destruct (Ascii.is_space a); cbn; [done|discriminate].
Qed.

Lemma nonblank_rev_app (s acc : string) :
  nonblank (String.rev_app s acc) = nonblank s || nonblank acc.
Proof.
  revert acc. induction s as [|a s IH]; intros acc; [done|]. cbn.
  rewrite IH. cbn. destruct (Ascii.is_space a), (nonblank s); by cbn.
Qed.

Lemma nonblank_rev (s : string) : nonblank (String.rev s) = nonblank s.
Proof. unfold String.rev. rewrite nonblank_rev_app. cbn. by rewrite orb_false_r. Qed.

Lemma nonblank_strip (s : string) : nonblank (strip s) = nonblank s.
Proof.
  unfold strip. by rewrite nonblank_rev, nonblank_lstrip, nonblank_rev, nonblank_lstrip.
Qed.

Lemma nonblank_empty (s : string) : nonblank s = true → s ≠ "".
Proof. by intros Hs ->. Qed.

Lemma strip_empty (s : string) : strip s = "" ↔ nonblank s = false.
Proof.
  split.
  - intros Hs. rewrite <- nonblank_strip. by rewrite Hs.
  - intros Hs. unfold strip. by rewrite (lstrip_blank s).
Qed.

Lemma words_go_some (s c : string) : String.words_go (Some c) s ≠ [].
Proof.
  revert c. induction s as [|a s IH]; intros c; cbn; [done|].
  destruct (Ascii.is_space a); [done|]. apply IH.
Qed.

Lemma split_empty (s : string) : split s = [] ↔ nonblank s = false.
Proof.
  unfold split, String.words. induction s as [|a s IH]; [done|]. cbn.
  destruct (Ascii.is_space a); cbn; [done|].
  split; [|done]. intros Hw. by apply words_go_some in Hw.
Qed.

End Blank.

(** ** Computations that stay within a relation *)

Section Within.
Context {S : Type} (R : relation S) `{!PreOrder R}.

Lemma within_ret {A} (a : A) : within R (ret a).
Proof. intros s. reflexivity. Qed.

Lemma within_raise {A} (e : exn) : within R (raise (A := A) e).
Proof. intros s. reflexivity. Qed.

Lemma within_lift {A} (r : A + exn) : within R (lift r).
Proof. intros s. reflexivity. Qed.

Lemma within_gets {A} (f : S → A) : within R (gets f).
Proof. intros s. reflexivity. Qed.

Lemma within_bind {A B} (m : M S A) (k : A → M S B) :
  within R m → (∀ a, within R (k a)) → within R (bind m k).
Proof.
  intros Hm Hk s. unfold bind. specialize (Hm s).
  destruct (m s) as [[a|e] s']; cbn in *; [|done].
  etrans; [done|]. apply Hk.
Qed.

Lemma within_for_each {A} (xs : list A) (body : A → M S unit) :
  (∀ x, within R (body x)) → within R (for_each xs body).
Proof.
  intros Hb. induction xs as [|x xs IH]; cbn [for_each].
  - apply within_ret.
  - apply within_bind; [apply Hb | intros _; apply IH].
Qed.

End Within.

(** Takes a computation apart along its binds and branches. *)
Ltac within :=
  repeat first
    [ solve [auto]
    | solve [first [apply within_ret | apply within_raise
                   | apply within_lift | apply within_gets];
             typeclasses eauto]
    | match goal with
      | Hsend : ∀ tag payload, tag ∈ command_tags → within _ _
        |- within _ (send_command _ _) =>
          apply Hsend;
          solve [repeat first [apply list_elem_of_here | apply list_elem_of_further]]
      end
    | match goal with
      | |- within ?R (bind (raise ?e) _) => exact (within_raise R e)
      end
    | apply within_bind; [typeclasses eauto..| |intros ?]
    | apply within_for_each; [typeclasses eauto..|intros ?]
    | match goal with
      | |- within _ (if ?b then _ else _) => destruct b
      | |- within _ (match ?x with _ => _ end) => destruct x
      end ].

(** What holds of sending, printing, helping and stopping holds of
    every command, and of the loop if it holds of recording the line. *)
Section Handlers.
Context `{JsonLib} (R : relation repl) `{!PreOrder R}.
Hypothesis R_send : ∀ tag payload,
  tag ∈ command_tags → within R (send_command tag payload).
Hypothesis R_print : ∀ line, within R (print line).
Hypothesis R_help : ∀ arg, within R (emit (EHelp arg)).
Hypothesis R_stop : within R (modify (set_stop true)).

Lemma within_handlers :
  Forall (λ entry, ∀ arg, within R (entry.2 arg)) handlers.
Proof using All.
  repeat constructor; intros arg; cbn [snd];
    unfold do_tbreak, do_step, do_return, do_next, do_until, do_continue,
      do_watch, do_unwatch, do_break, do_clear, do_list, do_quit,
      call_parse_break_arg, parse_break_arg, missing_argument, tuple_setitem;
    within.
Qed.

Lemma within_getattr (name : string) (func : string → M repl unit) (arg : string) :
  QdbRepl.getattr name = Some func → within R (func arg).
Proof using All.
  unfold QdbRepl.getattr. intros Hg%elem_of_list_to_map_2.
  by apply (proj1 (Forall_forall _ _) within_handlers (name, func)).
Qed.

Hypothesis R_lastcmd : ∀ line, within R (modify (set_lastcmd line)).

Lemma within_onecmd_line (line : string) : within R (onecmd_line line).
Proof using All.
  unfold onecmd_line, default_.
  destruct (parseline line) as [[[cmd|] arg] l]; [|within].
  apply within_bind; [typeclasses eauto..|within|intros _].
  apply within_bind; [typeclasses eauto..|within|intros _].
  apply within_bind; [typeclasses eauto..| |intros _; within].
  destruct (String.eqb cmd ""); [within|].
  destruct (QdbRepl.getattr _) eqn:Hg; [by eapply within_getattr | within].
Qed.

Lemma within_onecmd (line : string) : within R (onecmd line).
Proof using All.
  unfold onecmd, emptyline. pose proof within_onecmd_line. within.
Qed.

Lemma within_loop (lines : list string) : within R (loop lines).
Proof using All.
  pose proof within_onecmd.
  induction lines as [|line lines IH]; cbn [loop]; unfold postcmd; within.
Qed.

End Handlers.

(** ** What the command loop keeps *)

Section Invariants.
Context `{JsonLib}.

#[global] Instance same_session_preorder : PreOrder same_session.
Proof.
  split.
  - intros s. by repeat split.
  - intros s1 s2 s3 (?&?&?&?&?&?) (?&?&?&?&?&?).
    repeat split; try congruence. auto.
Qed.

#[global] Instance commands_only_preorder : PreOrder commands_only.
Proof.
  split.
  - intros s. exists []. split; [by rewrite app_nil_r|constructor].
  - intros s1 s2 s3 (t1 & Hl1 & Hf1) (t2 & Hl2 & Hf2).
    exists (t1 ++ t2)%list. split.
    + by rewrite Hl2, Hl1, <- app_assoc.
    + by apply Forall_app.
Qed.

#[global] Instance same_lastcmd_preorder : PreOrder same_lastcmd.
Proof.
  split; [by intros s|]. intros s1 s2 s3. unfold same_lastcmd. congruence.
Qed.

(** The two ways [send] goes. *)
Lemma send_connected (msg : frame) (st : repl) (url : string) :
  _ws st = Some url → send msg st = (inl (), add_log (ESend msg) st).
Proof. intros Hws. unfold send, bind, gets. by rewrite Hws. Qed.

Lemma send_unconnected (msg : frame) (st : repl) :
  _ws st = None → send msg st = (inr AttributeError, st).
Proof. intros Hws. unfold send, bind, gets. by rewrite Hws. Qed.

Lemma send_cases (msg : frame) (st : repl) :
  send msg st = (inr AttributeError, st) ∧ _ws st = None
  ∨ send msg st = (inl (), add_log (ESend msg) st) ∧ _ws st ≠ None.
Proof.
  destruct (_ws st) as [url|] eqn:Hws.
  - right. by erewrite send_connected.
  - left. by rewrite send_unconnected.
Qed.

(** X1. The options, the connection and the trace file of a session are
    the same after a command, and after any number of them, whether the
    command returns or raises; and no command clears the stop flag. *)
Theorem loop_same_session (st : repl) :
  (∀ line, same_session st (onecmd line st).2)
  ∧ (∀ lines, same_session st (loop lines st).2).
Proof.
  assert (∀ tag payload, tag ∈ command_tags →
            within same_session (send_command tag payload)) as Hsend.
  { intros tag payload _ s. unfold send_command.
    destruct (send_cases (fmt_msg tag payload) s) as [[-> _]|[-> _]];
      by repeat split. }
  split; intros l;
    [apply (within_onecmd same_session) | apply (within_loop same_session)];
    try done; by repeat split.
Qed.

Lemma offline_of_same {A} (url : string) (r : A + exn) (s st : repl) :
  _ws s = None → log s = log st →
  offline_of url (r, s) (r, set_ws (Some url) s) st.
Proof.
  intros Hws Hlog. split_and!; [done| |by left].
  exists []. split; [by rewrite app_nil_r|constructor].
Qed.

Lemma twin_ret {A} (a : A) : twin (ret a).
Proof. split; [apply grows_ret|]. intros st url Hn. by apply offline_of_same. Qed.

Lemma twin_raise {A} (e : exn) : twin (raise (A := A) e).
Proof. split; [apply grows_raise|]. intros st url Hn. by apply offline_of_same. Qed.

Lemma twin_lift {A} (r : A + exn) : twin (lift r).
Proof. split; [apply grows_lift|]. intros st url Hn. by apply offline_of_same. Qed.

Lemma twin_gets {A} (f : repl → A) :
  (∀ v s, f (set_ws v s) = f s) → twin (gets f).
Proof.
  intros Hf. split; [apply grows_gets|]. intros st url Hn.
  unfold gets. rewrite Hf. by apply offline_of_same.
Qed.

Lemma twin_modify (g : repl → repl) :
  (∀ v s, g (set_ws v s) = set_ws v (g s)) →
  (∀ s, log (g s) = log s) → (∀ s, _ws (g s) = _ws s) →
  twin (modify g).
Proof.
  intros Hc Hl Hw. split; [by apply grows_modify|]. intros st url Hn.
  unfold modify. rewrite Hc. apply offline_of_same; [by rewrite Hw|by rewrite Hl].
Qed.

Lemma twin_emit (e : effect) : is_local e = true → twin (emit e).
Proof.
  intros He. split; [apply grows_emit|]. intros st url Hn.
  split_and!; [done| |by left]. exists [e]. split; [done|by constructor].
Qed.

Lemma twin_send (msg : frame) : twin (send msg).
Proof.
  split.
  - unfold send. apply grows_bind; [apply grows_gets|].
    intros [?|]; [apply grows_emit|apply grows_raise].
  - intros st url Hn. unfold send, bind, gets. rewrite Hn. cbn.
    split_and!; [done| |right; split; [done|by exists msg, []]].
    exists []. split; [by rewrite app_nil_r|constructor].
Qed.

Lemma twin_bind {A B} (m : M repl A) (k : A → M repl B) :
  twin m → (∀ a, twin (k a)) → twin (bind m k).
Proof.
  intros [Hgm Hm] Hk. split.
  { apply grows_bind; [done|]. intros a. apply Hk. }
  intros st url Hn. destruct (Hm st url Hn) as (Hws & (t1 & Hl1 & Hf1) & Hcase).
  unfold bind.
  destruct (m st) as [r s], (m (set_ws (Some url) st)) as [r' s'].
  cbn [fst snd] in *.
  destruct Hcase as [[-> ->]|[-> (w & post & Hlog)]].
  - destruct r' as [a|e].
    + destruct (Hk a) as [_ Hka].
      destruct (Hka s url Hws) as (Hws2 & (t2 & Hl2 & Hf2) & Hc2).
      split_and!; [done| |done].
      exists (t1 ++ t2)%list. split; [by rewrite Hl2, Hl1, <- app_assoc|].
      by apply Forall_app.
    + split_and!; [done|by exists t1|by left].
  - split_and!; [done|by exists t1|]. right. split; [done|].
    destruct r' as [a|e]; [|by exists w, post].
    destruct (Hk a) as [Hg _]. destruct (Hg s') as [t Ht].
    exists w, (post ++ t)%list. cbn [snd]. rewrite Ht, Hlog.
    by rewrite <- app_assoc.
Qed.

Lemma twin_for_each {A} (xs : list A) (body : A → M repl unit) :
  (∀ x, twin (body x)) → twin (for_each xs body).
Proof.
  intros Hb. induction xs as [|x xs IH]; cbn [for_each].
  - apply twin_ret.
  - apply twin_bind; [apply Hb | intros _; apply IH].
Qed.

Lemma twin_send_command (tag : string) (payload : pyval) :
  twin (send_command tag payload).
Proof. apply twin_send. Qed.

Lemma twin_print (line : string) : twin (print line).
Proof. by apply twin_emit. Qed.

Lemma twin_stop : twin (modify (set_stop true)).
Proof. by apply twin_modify. Qed.

Lemma twin_lastcmd (line : string) : twin (modify (set_lastcmd line)).
Proof. by apply twin_modify. Qed.

(** Takes a computation apart along its binds and branches. *)
Ltac twin :=
  repeat match goal with
    | H : twin ?m |- twin ?m => exact H
    | H : ∀ x, twin (?f x) |- twin (?f _) => apply H
    | |- twin (ret _) => apply twin_ret
    | |- twin (raise _) => apply twin_raise
    | |- twin (lift _) => apply twin_lift
    | |- twin (gets _) => apply twin_gets; reflexivity
    | |- twin (emit _) => apply twin_emit; reflexivity
    | |- twin (print _) => apply twin_print
    | |- twin (send_command _ _) => apply twin_send_command
    | |- twin (modify (set_stop true)) => apply twin_stop
    | |- twin (modify (set_lastcmd _)) => apply twin_lastcmd
    | |- twin (bind (raise ?e) _) => exact (twin_raise e)
    | |- twin (bind _ _) => apply twin_bind; [|intros ?]
    | |- twin (for_each _ _) => apply twin_for_each; intros ?
    | |- twin (if ?b then _ else _) => destruct b
    | |- twin (match ?x with _ => _ end) => destruct x
    end.

Lemma twin_handlers :
  Forall (λ entry, ∀ arg, twin (entry.2 arg)) handlers.
Proof.
  unfold handlers.
  repeat (apply List.Forall_cons;
    [intros arg; cbn [snd];
     unfold do_tbreak, do_step, do_return, do_next, do_until, do_continue,
       do_watch, do_unwatch, do_break, do_clear, do_list, do_quit,
       call_parse_break_arg, parse_break_arg, missing_argument, tuple_setitem;
     twin|]).
  apply List.Forall_nil.
Qed.

Lemma twin_getattr (name : string) (func : string → M repl unit) (arg : string) :
  QdbRepl.getattr name = Some func → twin (func arg).
Proof.
  unfold QdbRepl.getattr. intros Hg%elem_of_list_to_map_2.
  by apply (proj1 (Forall_forall _ _) twin_handlers (name, func)).
Qed.

Lemma twin_onecmd_line (line : string) : twin (onecmd_line line).
Proof.
  unfold onecmd_line, default_.
  destruct (parseline line) as [[[cmd|] arg] l]; [|twin].
  apply twin_bind; [twin|intros _]. apply twin_bind; [twin|intros _].
  apply twin_bind; [|intros _; twin].
  destruct (String.eqb cmd ""); [twin|].
  destruct (QdbRepl.getattr _) eqn:Hg; [by eapply twin_getattr | twin].
Qed.

Lemma twin_onecmd (line : string) : twin (onecmd line).
Proof.
  unfold onecmd, emptyline. pose proof twin_onecmd_line. twin.
Qed.

Lemma twin_loop (lines : list string) : twin (loop lines).
Proof.
  pose proof twin_onecmd.
  induction lines as [|line lines IH]; cbn [loop]; unfold postcmd; twin.
Qed.

(** X2. A session that is not connected, against the same session
    connected. On the first, no sequence of commands sends a frame,
    opens a connection or starts the printer: what the loop does stays
    on the terminal, and the session is still not connected. The two
    runs agree in result and state, or the unconnected run ended with
    [AttributeError] at the point where the connected run sent its
    first frame. *)
Theorem loop_offline (lines : list string) (st : repl) (url : string) :
  _ws st = None →
  let off := loop lines st in
  let on := loop lines (set_ws (Some url) st) in
  _ws off.2 = None
  ∧ (∃ tail, log off.2 = (log st ++ tail)%list
             ∧ Forall (λ e, is_local e = true) tail)
  ∧ (off.1 = on.1 ∧ on.2 = set_ws (Some url) off.2
     ∨ off.1 = inr AttributeError
       ∧ ∃ w post, log on.2 = (log off.2 ++ ESend w :: post)%list).
Proof. intros Hn. by apply twin_loop. Qed.

(** X3. Whatever is typed, the loop opens no connection and starts no
    process, and every frame it sends is the encoding of one of the
    eleven tags of [command_tags]: [start] is sent by [_connect] only,
    and [set_break] is never sent. *)
Theorem loop_commands_only (lines : list string) (st : repl) :
  ∃ tail, log (loop lines st).2 = (log st ++ tail)%list
          ∧ Forall is_command tail.
Proof.
  revert st. change (within commands_only (loop lines)).
  apply within_loop; try apply _.
  - intros tag payload Htag s. unfold send_command.
    destruct (send_cases (fmt_msg tag payload) s) as [[-> _]|[-> _]].
    + exists []. split; [by rewrite app_nil_r|constructor].
    + exists [ESend (fmt_msg tag payload)]. split; [done|].
      repeat constructor. by exists tag, payload.
  - intros line s. exists [EPrint line]. by repeat constructor.
  - intros arg s. exists [EHelp arg]. by repeat constructor.
  - intros s. exists []. split; [by rewrite app_nil_r|constructor].
  - intros line s. exists []. split; [by rewrite app_nil_r|constructor].
Qed.

End Invariants.

(** ** Lines *)

Section Lines.
Context `{JsonLib}.

Lemma span_ident_spec (s : string) :
  s = (span_ident s).1 ++ (span_ident s).2
  ∧ identifier (span_ident s).1 = true
  ∧ ends_word (span_ident s).2.
Proof.
  induction s as [|a s (IH1 & IH2 & IH3)]; [done|]. cbn.
  destruct (identchar a) eqn:Ha; [|done].
  destruct (span_ident s) as [cmd rest]. cbn in *.
  rewrite Ha. split_and!; [by rewrite IH1 at 1|done..].
Qed.

Lemma strip_nonblank (s : string) : strip s ≠ "" → nonblank (strip s) = true.
Proof.
  intros Hs. rewrite nonblank_strip. destruct (nonblank s) eqn:Hn; [done|].
  by apply strip_empty in Hn.
Qed.

(** What [parseline] makes of a line. A line that is blank or
    starts with [!] has no command word and no argument. Every other
    line is cut after its longest prefix of identifier characters: the
    prefix is the command word, what follows, stripped, is the
    argument; the line handed on is the stripped line, with a leading
    [?] replaced by [help ], and it is never blank. *)
Lemma parseline_spec (line : string) :
  match parseline line with
  | (Some cmd, Some arg, l) =>
      identifier cmd = true
      ∧ (∃ tl, l = cmd ++ tl ∧ ends_word tl ∧ arg = strip tl)
      ∧ nonblank l = true
      ∧ (l = strip line
         ∨ ∃ rest, strip line = String "?" rest ∧ l = "help " ++ rest)
  | (None, None, l) =>
      l = strip line ∧ (l = "" ∨ ∃ rest, l = String "!" rest)
  | _ => False
  end.
Proof.
  unfold parseline. destruct (strip line) as [|c rest] eqn:Hs; [by auto|].
  destruct (Ascii.eqb_spec c "!") as [->|Hc]; [by eauto|].
  assert (nonblank (String c rest) = true) as Hnb.
  { rewrite <- Hs. apply strip_nonblank. by rewrite Hs. }
  set (l := if Ascii.eqb c "?" then "help " ++ rest else String c rest).
  destruct (span_ident_spec l) as (Happ & Hid & Hend).
  destruct (span_ident l) as [cmd tl]. cbn [fst snd] in *.
  split_and!; [done|by exists tl| |].
  - subst l. by destruct (Ascii.eqb c "?").
  - subst l. destruct (Ascii.eqb_spec c "?") as [->|]; eauto.
Qed.


Lemma parseline_blank (s : string) :
  nonblank s = false → parseline s = (None, None, "").
Proof. intros Hs. unfold parseline. by rewrite (proj2 (strip_empty s) Hs). Qed.







(** The two turns of a command without argument and of the blank line
    that follows it. *)
Lemma onecmd_plain (cmd tag url : string) (st : repl) :
  (cmd, tag) ∈ plain_commands → _ws st = Some url →
  onecmd cmd st
  = (inl false,
     add_log (ESend (json_dumps (PDict {[ "e" := PStr tag ]})))
             (set_lastcmd cmd st)).
Proof.
  intros Hc Hws. destruct st. cbn in Hws. subst.
  repeat (apply elem_of_cons in Hc as [[= -> ->]|Hc]; [by vm_compute|]).
  by apply elem_of_nil in Hc.
Qed.

Lemma emptyline_plain (cmd tag url : string) (st : repl) :
  (cmd, tag) ∈ plain_commands → _ws st = Some url → lastcmd st = cmd →
  emptyline st
  = (inl false, add_log (ESend (json_dumps (PDict {[ "e" := PStr tag ]}))) st).
Proof.
  intros Hc Hws Hl. destruct st. cbn in Hws, Hl. subst.
  repeat (apply elem_of_cons in Hc as [[= -> ->]|Hc]; [by vm_compute|]).
  by apply elem_of_nil in Hc.
Qed.

Lemma onecmd_blank (line : string) (st : repl) :
  nonblank line = false → onecmd line st = emptyline st.
Proof. intros Hline. unfold onecmd. by rewrite parseline_blank. Qed.

(** X5. A blank line after a command without argument sends the frame
    of that command again: on a connected session that is not stopped,
    [step], [next] and the like followed by a line that is empty or
    holds only whitespace send their tag twice, and the loop goes on
    with the next line. *)
Theorem blank_line_repeats (cmd tag line url : string) (rest : list string)
    (st : repl) :
  (cmd, tag) ∈ plain_commands → nonblank line = false →
  _ws st = Some url → _stop st = false →
  let sent := ESend (json_dumps (PDict {[ "e" := PStr tag ]})) in
  loop (cmd :: line :: rest) st
  = loop rest (add_log sent (add_log sent (set_lastcmd cmd st))).
Proof.
  intros Hc Hline Hws Hstop sent.
  rewrite loop_cons, (onecmd_plain cmd tag url) by done.
  cbn [orb _stop add_log set_lastcmd]. rewrite Hstop.
  rewrite loop_cons, onecmd_blank by done.
  rewrite (emptyline_plain cmd tag url) by done.
  cbn [orb _stop add_log set_lastcmd]. by rewrite Hstop.
Qed.

End Lines.

(** ** Commands *)

Section Commands.
Context `{JsonLib}.

Lemma send_command_connected (tag : string) (payload : pyval) (st : repl)
    (url : string) :
  _ws st = Some url →
  send_command tag payload st = (inl (), add_log (ESend (fmt_msg tag payload)) st).
Proof. intros Hws. unfold send_command. by erewrite send_connected. Qed.

(** X7. [clear] with a file and a line sends [clear_break] with the two
    tokens, as strings, and [None] for the function and the condition. *)
Theorem do_clear_two_tokens (arg f l url : string) (st : repl) :
  _ws st = Some url → split arg = [f; l] →
  do_clear arg st
  = (inl (),
     add_log (ESend (json_dumps (PDict {[
         "e" := PStr "clear_break";
         "p" := PDict {[ "file" := PStr f; "line" := PStr l;
                         "func" := PNone; "cond" := PNone ]} ]}))) st).
Proof.
  intros Hws Hs. unfold do_clear.
  rewrite truthy_str_ne by (apply split_nonempty; by rewrite Hs).
  cbn [negb call_parse_break_arg]. unfold bind at 1.
  rewrite (parse_break_arg_two arg f l) by done.
  rewrite truthy_dict_insert, (send_command_connected _ _ _ url) by done.
  by rewrite fmt_msg_truthy by apply truthy_dict_insert.
Qed.

(** X8. [clear] with a file and no line prints the error of
    [parse_break_arg] and goes on to [args[1]], which raises
    [IndexError]: nothing is sent. *)
Theorem do_clear_one_token (arg f : string) (st : repl) :
  split arg = [f] →
  do_clear arg st
  = (inr IndexError,
     add_log (EPrint "*** error: break_arg: Missing line number") st).
Proof.
  intros Hs. unfold do_clear.
  rewrite truthy_str_ne by (apply split_nonempty; by rewrite Hs).
  cbn [negb call_parse_break_arg]. unfold bind at 1.
  unfold parse_break_arg, bind, lift. cbn. by rewrite Hs.
Qed.

(** X9. [clear] with a function or a condition after the line raises
    [TypeError] out of the pairing loop: nothing is sent and nothing is
    printed. *)
Theorem do_clear_optional (arg : string) (st : repl) :
  (3 ≤ length (split arg))%nat → do_clear arg st = (inr TypeError, st).
Proof.
  intros Hs. unfold do_clear.
  rewrite truthy_str_ne
    by (apply split_nonempty; intros E; rewrite E in Hs; cbn in Hs; lia).
  cbn [negb call_parse_break_arg]. unfold bind at 1.
  by rewrite parse_break_arg_optional.
Qed.

(** X10. [watch] and [unwatch] send the tokens of the argument as a list
    of names, under the tags [set_watch] and [clear_watch]. An argument
    that is not blank has a token, so the frame has a payload. *)
Theorem do_watch_names (arg url : string) (st : repl) :
  _ws st = Some url → nonblank arg = true →
  let names := PList (PStr <$> split arg) in
  split arg ≠ []
  ∧ do_watch arg st
    = (inl (), add_log (ESend (json_dumps (PDict {[
          "e" := PStr "set_watch"; "p" := names ]}))) st)
  ∧ do_unwatch arg st
    = (inl (), add_log (ESend (json_dumps (PDict {[
          "e" := PStr "clear_watch"; "p" := names ]}))) st).
Proof.
  intros Hws Harg names.
  assert (split arg ≠ []) as Hs.
  { intros Hs%split_empty. congruence. }
  assert (truthy names = true) as Hn.
  { subst names. cbn. by destruct (split arg). }
  unfold do_watch, do_unwatch.
  rewrite truthy_str_ne by (by apply nonblank_empty).
  cbn [negb]. rewrite !(send_command_connected _ _ _ url) by done.
  by rewrite !fmt_msg_truthy by done.
Qed.

(** X11. An argument of whitespace only is not a missing argument:
    [watch] and [unwatch] called with it send their tag without a
    payload, the list of names being empty. *)
Theorem do_watch_blank (arg url : string) (st : repl) :
  _ws st = Some url → arg ≠ "" → nonblank arg = false →
  do_watch arg st
  = (inl (), add_log (ESend (json_dumps (PDict {[ "e" := PStr "set_watch" ]}))) st)
  ∧ do_unwatch arg st
    = (inl (), add_log (ESend (json_dumps (PDict {[ "e" := PStr "clear_watch" ]}))) st).
Proof.
  intros Hws Harg Hb. unfold do_watch, do_unwatch.
  rewrite truthy_str_ne by done. cbn [negb].
  rewrite !(send_command_connected _ _ _ url) by done.
  rewrite (proj2 (split_empty arg) Hb). by rewrite !fmt_msg_falsy by done.
Qed.

(** X12. The commands without argument and their aliases: each name has
    a handler, and on a connected session the handler sends the frame
    that holds the tag only, whatever argument it is given. *)
Theorem plain_commands_send_tag (cmd tag arg url : string) (st : repl) :
  (cmd, tag) ∈ plain_commands → _ws st = Some url →
  ∃ func, QdbRepl.getattr ("do_" ++ cmd) = Some func
          ∧ func arg st
            = (inl (), add_log (ESend (json_dumps (PDict {[ "e" := PStr tag ]}))) st).
Proof.
  intros Hc Hws.
  repeat (apply elem_of_cons in Hc as [[= -> ->]|Hc];
          [destruct st; cbn in Hws; subst;
           eexists; split; [reflexivity|]; by vm_compute|]).
  by apply elem_of_nil in Hc.
Qed.

(** X13. A line that is not a command is sent to be evaluated: when the
    line starts with [!], or its command word is empty or names no
    handler, [eval] is sent with the whole stripped line as payload. *)
Theorem onecmd_eval (line l url : string) (cmd arg : option string) (st : repl) :
  _ws st = Some url →
  parseline line = (cmd, arg, l) → l ≠ "" →
  (∀ c, cmd = Some c → c = "" ∨ QdbRepl.getattr ("do_" ++ c) = None) →
  onecmd line st
  = (inl false,
     add_log (ESend (json_dumps (PDict {[ "e" := PStr "eval"; "p" := PStr l ]})))
             (match cmd with Some _ => set_lastcmd l st | None => st end)).
Proof.
  intros Hws Hp Hl Hc. unfold onecmd, onecmd_line. rewrite Hp. cbn [snd].
  rewrite truthy_str_ne by done. cbn [negb].
  assert (∀ s, _ws s = Some url →
            default_ l s
            = (inl (), add_log (ESend (json_dumps (PDict {[
                  "e" := PStr "eval"; "p" := PStr l ]}))) s)) as Hd.
  { intros s Hs. unfold default_.
    rewrite (send_command_connected _ _ _ url) by done.
    by rewrite fmt_msg_truthy by (by apply truthy_str_ne). }
  destruct cmd as [c|].
  - assert (String.eqb l "EOF" = false) as ->.
    { apply String.eqb_neq. intros ->.
      assert (strip line = "EOF") as Hs.
      { pose proof (parseline_spec line) as Hsh. rewrite Hp in Hsh.
        destruct arg; [|done].
        destruct Hsh as (_ & _ & _ & [->|(rest & _ & [=])]); done. }
      unfold parseline in Hp. rewrite Hs in Hp. vm_compute in Hp.
      injection Hp as <- _. by destruct (Hc "EOF" eq_refl). }
    unfold bind, modify, ret.
    destruct (Hc c eq_refl) as [->|Hg].
    + cbn [String.eqb]. by rewrite Hd.
    + rewrite Hg. destruct (String.eqb c ""); by rewrite Hd.
  - unfold bind, ret. by rewrite Hd.
Qed.

(** The handlers return [None]: [onecmd] never asks the loop to stop. *)
Lemma bind_false {A} (m : M repl A) (k : A → M repl bool) :
  (∀ a s s' b, k a s = (inl b, s') → b = false) →
  ∀ s s' b, bind m k s = (inl b, s') → b = false.
Proof.
  intros Hk s s' b. unfold bind. destruct (m s) as [[a|e] s1]; [|discriminate].
  apply Hk.
Qed.

Lemma onecmd_line_false (line : string) (st st' : repl) (stop : bool) :
  onecmd_line line st = (inl stop, st') → stop = false.
Proof.
  unfold onecmd_line. destruct (parseline line) as [[[cmd|] arg] l];
    repeat (apply bind_false; intros ? ? ? ?); unfold ret; congruence.
Qed.

Lemma onecmd_false (line : string) (st st' : repl) (stop : bool) :
  onecmd line st = (inl stop, st') → stop = false.
Proof.
  unfold onecmd, emptyline, bind, gets, ret.
  destruct (negb _); [|apply onecmd_line_false].
  destruct (truthy _); [apply onecmd_line_false|congruence].
Qed.

Lemma onecmd_EOF_stopped (st st' : repl) (stop : bool) :
  onecmd "EOF" st = (inl stop, st') → _stop st' = true.
Proof.
  destruct st as [a w u f [ws|] s l lg]; vm_compute; intros Heq; by simplify_eq.
Qed.

(** X14. The loop returns only once the stop flag is set: it is [quit],
    or the end of the input, that ends a session; every other way out
    of the loop is an exception. *)
Theorem loop_returns_stopped (lines : list string) (st st' : repl) :
  loop lines st = (inl (), st') → _stop st' = true.
Proof.
  revert st. induction lines as [|line lines IH]; intros st.
  - cbn [loop]. unfold bind at 1.
    destruct (onecmd "EOF" st) as [[stop|e] st1] eqn:Hone; [|discriminate].
    apply onecmd_EOF_stopped in Hone.
    unfold postcmd, bind, gets, ret. by intros [= <-].
  - rewrite loop_cons.
    destruct (onecmd line st) as [[stop|e] st1] eqn:Hone; [|discriminate].
    apply onecmd_false in Hone as ->. cbn [orb].
    destruct (_stop st1) eqn:Hstop; [by intros [= <-] | apply IH].
Qed.

(** X15. What [preloop] makes of the options when no websocket address
    is given ([None] or empty; a template of the user's own can make
    [str.format] raise). The address is the default one; a uuid that is
    missing or empty takes its default; [preloop] returns with the
    session connected to the address with the uuid filled in, the trace
    file named after the uuid, no last command and the stop flag
    down. *)
Theorem preloop_defaults (addr u auth : option string) :
  truthy (opt_str addr) = false →
  let u' := if truthy (opt_str u) then default "" u else DEFAULT_UUID in
  let st := (preloop (QdbRepl.init addr u auth)).2 in
  (preloop (QdbRepl.init addr u auth)).1 = inl ()
  ∧ wsaddress st = Some DEFAULT_WS_ADDRESS ∧ uuid st = Some u'
  ∧ auth_msg st = Some (default "" auth)
  ∧ _ws st = Some (format_uuid DEFAULT_WS_ADDRESS u')
  ∧ filename st = Some (FILE_FORMAT u')
  ∧ _stop st = false ∧ lastcmd st = "".
Proof.
  destruct addr as [[|??]|], u as [[|??]|], auth as [[|??]|];
    try discriminate; intros _; split_and!; reflexivity.
Qed.

(** X16. A session ended at the first prompt, when no websocket
    address is given. Whatever the uuid and the auth message, the
    client connects, sends [start], starts the printer, sends
    [disable] with [soft] for the end of the input, and the program
    then dies of [NameError] at [os.remove], the trace file still in
    place. *)
Theorem main_end_of_input (addr u auth : option string) :
  truthy (opt_str addr) = false →
  let u' := if truthy (opt_str u) then default "" u else DEFAULT_UUID in
  (main addr u auth []).1 = inr NameError
  ∧ log (main addr u auth []).2
    = [ EConnect (format_uuid DEFAULT_WS_ADDRESS u');
        ESend (fmt_msg "start" (PStr (default "" auth)));
        ESpawn (FILE_FORMAT u');
        EPrint ("qdb connected: " ++ FILE_FORMAT u');
        ESend (json_dumps (PDict {[ "e" := PStr "disable"; "p" := PStr "soft" ]})) ].
Proof.
  destruct addr as [[|??]|], u as [[|??]|], auth as [[|??]|];
    try discriminate; intros _; split; reflexivity.
Qed.

End Commands.

(** ** Events *)

Section Events.
Context `{JsonLib}.

(** X18. An event that is not a dict with a string under ['e'] makes the
    dispatcher raise before anything is written: [KeyError] when the
    dict has no ['e'], [TypeError] otherwise. The frame was valid JSON,
    so this is not the end of the stream: the process dies of it. *)
Theorem dispatch_no_tag (ev : pyval) (f : file) (w : frame)
    (rest : list (option frame)) :
  (∀ d tag, ev = PDict d → d !! "e" ≠ Some (PStr tag)) →
  json_loads w = Some ev →
  let e := match ev with
           | PDict d => match d !! "e" with None => KeyError | Some _ => TypeError end
           | _ => TypeError
           end in
  dispatch ev f = (inr e, f)
  ∧ step (Printer Reading f (Some w :: rest)) = Some (Printer (Crashed e) f rest).
Proof.
  intros Hev Hw e.
  assert (dispatch ev f = (inr e, f)) as Hd.
  { subst e. unfold dispatch, bind, lift.
    destruct ev as [| | | | |d]; try done. cbn [getitem_str].
    destruct (d !! "e") as [[| | |tag| |]|] eqn:He; try done.
    by destruct (Hev d tag). }
  split; [done|]. by eapply step_raise.
Qed.

Lemma writeln_prefix (msg : string) : within prefix (writeln msg).
Proof. intros f. by apply prefix_app_r. Qed.

Lemma renderers_prefix :
  Forall (λ entry, ∀ payload, within prefix (entry.2 payload)) renderers.
Proof.
  pose proof writeln_prefix.
  repeat constructor; intros payload; cbn [snd];
    unfold event_print, event_list, event_stack, event_watchlist,
      event_breakpoints, event_error, event_return; within.
Qed.

Lemma dispatch_prefix (ev : pyval) : within prefix (dispatch ev).
Proof.
  pose proof writeln_prefix. unfold dispatch, unknown_event.
  apply within_bind; [typeclasses eauto..|within|intros e].
  apply within_bind; [typeclasses eauto..|within|intros name].
  destruct (ServerPrinter.getattr name) as [evfn|] eqn:Hg; [|within].
  apply within_bind; [typeclasses eauto..|within|intros p].
  unfold ServerPrinter.getattr in Hg. apply elem_of_list_to_map_2 in Hg.
  by apply (proj1 (Forall_forall _ _) renderers_prefix (name, evfn)).
Qed.

Lemma step_prefix (p q : printer) : step p = Some q → _file p `prefix_of` _file q.
Proof.
  unfold step. destruct (state p); try done.
  destruct (get_events (socket p)) as [[ev|] rest]; [|by intros [= <-]].
  pose proof (dispatch_prefix ev (_file p)) as Hd.
  destruct (dispatch ev (_file p)) as [[[]|e] f']; by intros [= <-].
Qed.

Lemma run_prefix (n : nat) (p : printer) : _file p `prefix_of` _file (run n p).
Proof.
  revert p. induction n as [|n IH]; intros p; cbn [run]; [done|].
  destruct (step p) as [q|] eqn:Hstep; [|done].
  etrans; [by apply step_prefix|apply IH].
Qed.

(** X19. The trace file is only appended to. An event, rendered or not,
    leaves the lines written before it in place, and so does every run
    of the process; the file of a printer starts with [Tracing...]. *)
Theorem trace_file_grows (sock : list (option frame)) :
  (∀ ev f, f `prefix_of` (dispatch ev f).2)
  ∧ (∀ n p, _file p `prefix_of` _file (run n p))
  ∧ ∃ tail, _file (ServerPrinter sock) = "Tracing..." :: tail.
Proof.
  split_and!.
  - intros ev f. apply dispatch_prefix.
  - apply run_prefix.
  - destruct (run_prefix (S (length sock)) (ServerPrinter.init sock)) as [tail Ht].
    by exists tail.
Qed.

Lemma step_reading (p : printer) :
  state p = Reading →
  ∃ q, step p = Some q ∧ socket q = drop 1 (socket p)
       ∧ (state q = Reading → socket p ≠ []).
Proof.
  intros Hp. unfold step. rewrite Hp.
  destruct (socket p) as [|[w|] rest]; cbn [get_events].
  - eexists. split_and!; done.
  - destruct (json_loads w) as [ev|]; [|eexists; split_and!; done].
    destruct (dispatch ev (_file p)) as [[[]|e] f'];
      eexists; split_and!; done.
  - eexists. split_and!; done.
Qed.

Lemma run_halts (n : nat) (p : printer) :
  (length (socket p) < n)%nat → step (run n p) = None.
Proof.
  revert p. induction n as [|n IH]; intros p Hn; [lia|]. cbn [run].
  destruct (step p) as [q|] eqn:Hstep; [|done].
  destruct (state p) eqn:Hp; try (rewrite step_halted in Hstep by (by rewrite Hp); done).
  destruct (step_reading p Hp) as (q' & Hq' & Hsock & Hne).
  rewrite Hstep in Hq'. injection Hq' as <-.
  destruct (state q) eqn:Hq;
    try (rewrite run_halted; apply step_halted; by rewrite Hq).
  apply IH. rewrite Hsock. specialize (Hne eq_refl).
  destruct (socket p); [done|]. cbn in *. rewrite drop_0. lia.
Qed.

Lemma terminations_reading (n : nat) (p : printer) :
  state p = Reading →
  terminations (trace n p)
  = match state (run n p) with Terminated => 1%nat | _ => 0%nat end.
Proof.
  revert p. induction n as [|n IH]; intros p Hp; cbn [trace run].
  { by rewrite Hp. }
  destruct (step_reading p Hp) as (q & Hq & _). rewrite Hq.
  destruct (trace_head n q) as [tl Htl].
  rewrite Htl, terminations_cons, <- Htl, Hp.
  destruct (state q) eqn:Hsq.
  - by rewrite IH.
  - rewrite trace_halted, run_halted by (apply step_halted; by rewrite Hsq).
    by rewrite Hsq.
  - rewrite trace_halted, run_halted by (apply step_halted; by rewrite Hsq).
    by rewrite Hsq.
Qed.

(** X20. A printer always ends, after at most one turn for each answer
    of the socket and one more: either in [Terminated], which the run
    entered once, or dead of an exception, in which case the run never
    went through [Terminated]. *)
Theorem printer_outcome (sock : list (option frame)) :
  let n := S (length sock) in
  let final := ServerPrinter sock in
  step final = None
  ∧ (state final = Terminated
     ∧ terminations (trace n (ServerPrinter.init sock)) = 1%nat
     ∨ ∃ e, state final = Crashed e
            ∧ terminations (trace n (ServerPrinter.init sock)) = 0%nat).
Proof.
  intros n final.
  assert (step final = None) as Hstep by (apply run_halts; cbn; lia).
  split; [done|].
  assert (terminations (trace n (ServerPrinter.init sock))
          = match state final with Terminated => 1%nat | _ => 0%nat end) as Ht
    by apply (terminations_reading n (ServerPrinter.init sock) eq_refl).
  destruct (state final) as [| |e] eqn:Hs.
  - destruct (step_reading final Hs) as (q & Hq & _). congruence.
  - by left.
  - right. by exists e.
Qed.

End Events.

(** ** Renderers *)

Section Renderers.
Context `{JsonLib}.

Lemma dispatch_getattr (tag : string) (evfn : pyval → M file unit)
    (d : gmap string pyval) (f : file) :
  ServerPrinter.getattr ("event_" ++ tag) = Some evfn →
  d !! "e" = Some (PStr tag) →
  dispatch (PDict d) f = evfn (dict_get d "p") f.
Proof.
  intros Hg He. unfold dispatch, bind, lift. cbn [getitem_str].
  rewrite He. cbn [str_add]. by rewrite Hg.
Qed.

(** X21. Of the frames of a stack only the last one is rendered: the
    frames before it are not looked at. *)
Theorem event_stack_last (frames : list pyval) (frame : pyval) (f : file) :
  event_stack (PList (frames ++ [frame])) f = event_stack (PList [frame]) f.
Proof.
  unfold event_stack, bind, lift. cbn [getitem_last]. by rewrite last_snoc.
Qed.

(** X22. A stack frame with a file and a line but no code to show (the
    key is missing, or what it holds is not a string) leaves its first
    line in the trace file: the exception comes after the line is
    written. *)
Theorem event_stack_without_code (frames : list pyval) (d : gmap string pyval)
    (file_ line : pyval) (n : string) (f : file) :
  d !! "file" = Some file_ → d !! "line" = Some line → fmt_d line = inl n →
  (∀ code, d !! "code" ≠ Some (PStr code)) →
  event_stack (PList (frames ++ [PDict d])) f
  = (inr (match d !! "code" with None => KeyError | Some _ => TypeError end),
     (f ++ [("> " ++ to_str file_ ++ ":" ++ n)%string])%list).
Proof.
  intros Hfile Hline Hn Hcode.
  unfold event_stack, bind, lift, writeln, modify. cbn [getitem_last].
  rewrite last_snoc. cbn [getitem_str]. rewrite Hfile, Hline, Hn.
  destruct (d !! "code") as [[| | |code| |]|] eqn:Hc; try done.
  by destruct (Hcode code).
Qed.

Lemma for_each_watched (items : list pyval) (entries : list (pyval * pyval))
    (f : file) :
  Forall2 is_watched items entries →
  for_each items (λ watched,
    name <- lift (getitem_str watched "name") ;;
    value <- lift (getitem_str watched "value") ;;
    writeln ("  > " ++ to_str name ++ ": " ++ to_str value)) f
  = (inl (), (f ++ (watched_line <$> entries))%list).
Proof.
  intros Hw. revert f.
  induction Hw as [|item entry items entries (d & -> & Hn & Hv) _ IH]; intros f.
  - cbn. unfold ret. by rewrite app_nil_r.
  - cbn [for_each]. unfold bind at 1. unfold bind at 1. unfold lift at 1.
    cbn [getitem_str]. rewrite Hn. unfold bind at 1. unfold lift at 1.
    cbn [getitem_str]. rewrite Hv. unfold writeln at 1. unfold modify at 1.
    rewrite IH. cbn [fmap list_fmap]. by rewrite <- app_assoc.
Qed.

(** X23. A watch list whose entries all hold a name and a value is
    rendered as a header, one line for each entry, in order, and a
    footer; the empty list gives the header and the footer. *)
Theorem event_watchlist_entries (items : list pyval)
    (entries : list (pyval * pyval)) (f : file) :
  Forall2 is_watched items entries →
  event_watchlist (PList items) f
  = (inl (),
     (f ++ ["watchlist: ["] ++ (watched_line <$> entries) ++ ["]"])%list).
Proof.
  intros Hw. unfold event_watchlist.
  unfold bind at 1. unfold writeln at 1. unfold modify at 1.
  unfold bind at 1. unfold lift at 1. cbn [iter]. unfold bind at 1.
  rewrite (for_each_watched _ entries) by done.
  unfold writeln, modify. by rewrite <- !app_assoc.
Qed.

(** X24. The watch list is cut at the first entry that is not a dict
    holding a name and a value: the header and the lines of the entries
    before it are in the trace file, the footer is never written, and
    the exception leaves the renderer. *)
Theorem event_watchlist_cut (good rest : list pyval) (bad : pyval)
    (entries : list (pyval * pyval)) (e : exn) (f : file) :
  Forall2 is_watched good entries →
  (getitem_str bad "name" = inr e
   ∨ ∃ name, getitem_str bad "name" = inl name
             ∧ getitem_str bad "value" = inr e) →
  event_watchlist (PList (good ++ bad :: rest)) f
  = (inr e, (f ++ ["watchlist: ["] ++ (watched_line <$> entries))%list).
Proof.
  intros Hw Hbad. unfold event_watchlist.
  unfold bind at 1. unfold writeln at 1. unfold modify at 1.
  unfold bind at 1. unfold lift at 1. cbn [iter]. unfold bind at 1.
  set (body := λ watched : pyval, _).
  assert (∀ g, for_each (good ++ bad :: rest) body g
               = (inr e, (g ++ (watched_line <$> entries))%list)) as ->.
  { induction Hw as [|item entry items entries' (d & -> & Hn & Hv) _ IH]; intros g.
    - cbn [app for_each fmap list_fmap]. rewrite app_nil_r.
      subst body. unfold bind, lift.
      destruct Hbad as [->|(name & -> & ->)]; done.
    - cbn [app for_each]. unfold bind at 1. subst body. cbn beta.
      unfold bind at 1. unfold lift at 1. cbn [getitem_str]. rewrite Hn.
      unfold bind at 1. unfold lift at 1. cbn [getitem_str]. rewrite Hv.
      unfold writeln at 1. unfold modify at 1.
      rewrite IH. cbn [fmap list_fmap]. by rewrite <- app_assoc. }
  by rewrite <- !app_assoc.
Qed.

(** X25. A [print] event with nothing in its output writes nothing, and
    does not look at its input; with an output, it writes the input and
    the output on one line when both are strings, and raises without
    writing when the input is missing or one of the two is not a
    string. *)
Theorem event_print_cases (d : gmap string pyval) (out : pyval) (f : file) :
  d !! "output" = Some out →
  event_print (PDict d) f
  = if truthy out
    then match d !! "input", out with
         | Some (PStr i), PStr o => (inl (), (f ++ [((i ++ ": ") ++ o)%string])%list)
         | None, _ => (inr KeyError, f)
         | Some _, _ => (inr TypeError, f)
         end
    else (inl (), f).
Proof.
  intros Hout. unfold event_print, bind, lift, writeln, modify.
  cbn [getitem_str]. rewrite Hout.
  destruct (truthy out); [|done].
  destruct (d !! "input") as [[| | |i| |]|], out as [| | |o| |]; done.
Qed.

(** X26. The renderers of [print], [list], [breakpoints], [error] and
    [return] write one line at most, and nothing when they raise: only
    [stack] and [watchlist] can leave part of their output behind. *)
Theorem one_line_renderers (evfn : pyval → M file unit) (payload : pyval)
    (f : file) :
  evfn ∈ [event_print; event_list; event_breakpoints; event_error; event_return] →
  match evfn payload f with
  | (inr _, f') => f' = f
  | (inl _, f') => f' = f ∨ ∃ line, f' = (f ++ [line])%list
  end.
Proof.
  intros Hin.
  repeat (apply elem_of_cons in Hin as [->|Hin];
          [unfold event_print, event_list, event_breakpoints, event_error,
             event_return, bind, lift, writeln, modify, ret;
           repeat case_match; simplify_eq; eauto|]).
  by apply elem_of_nil in Hin.
Qed.

(** X27. An [error] event is rendered as one line, with the type and the
    data of its payload. *)
Theorem event_error_line (d p : gmap string pyval) (type data : pyval) (f : file) :
  d !! "e" = Some (PStr "error") → d !! "p" = Some (PDict p) →
  p !! "type" = Some type → p !! "data" = Some data →
  dispatch (PDict d) f
  = (inl (),
     (f ++ [("*** error: " ++ to_str type ++ ": " ++ to_str data)%string])%list).
Proof.
  intros He Hp Ht Hd.
  rewrite (dispatch_getattr "error" event_error) by done.
  unfold dict_get. rewrite Hp. unfold event_error, bind, lift, writeln, modify.
  cbn [from_option id getitem_str]. by rewrite Ht, Hd.
Qed.

(** X28. What an event without payload does, tag by tag: [list] and
    [return] write [None], [breakpoints] writes nothing, [print],
    [stack] and [error] raise [TypeError] with nothing written, and
    [watchlist] raises after its header is written. *)
Theorem dispatch_without_payload (tag : string) (result : (unit + exn) * file)
    (d : gmap string pyval) (f : file) :
  (tag, result) ∈ without_payload f →
  d !! "e" = Some (PStr tag) → d !! "p" = None →
  dispatch (PDict d) f = result.
Proof.
  intros Hin He Hp.
  pose proof (λ evfn Hg, dispatch_getattr tag evfn d f Hg He) as Hd.
  unfold dict_get in Hd. rewrite Hp in Hd.
  repeat (apply elem_of_cons in Hin as [[= -> ->]|Hin];
          [by erewrite Hd by reflexivity|]).
  by apply elem_of_nil in Hin.
Qed.

End Renderers.

(** ** Further runs on the concrete runtime *)

Section Runs.
Import Model.
#[local] Existing Instance Model.runtime.

(** The address the session without options is connected to. *)
Lemma connected_ws : _ws connected = Some "ws://localhost:8002/debug_session/qdb".
Proof. reflexivity. Qed.

(** A [watch] without argument and a [step], on a client that never
    connected. *)
Lemma loop_offline_witness :
  let st := QdbRepl.init None None None in
  let off := loop ["watch"; "step"] st in
  let on := loop ["watch"; "step"] (set_ws (Some "ws://h/qdb") st) in
  _ws off.2 = None
  ∧ (∃ tail, log off.2 = (log st ++ tail)%list
             ∧ Forall (λ e, is_local e = true) tail)
  ∧ (off.1 = on.1 ∧ on.2 = set_ws (Some "ws://h/qdb") off.2
     ∨ off.1 = inr AttributeError
       ∧ ∃ w post, log on.2 = (log off.2 ++ ESend w :: post)%list).
Proof.
  apply (loop_offline ["watch"; "step"] (QdbRepl.init None None None)
           "ws://h/qdb").
  reflexivity.
Defined.


(** [step], a line of two spaces, and [quit]. *)
Lemma blank_line_repeats_witness :
  let sent := ESend (json_dumps (PDict {[ "e" := PStr "step" ]})) in
  loop ["step"; "  "; "quit"] connected
  = loop ["quit"] (add_log sent (add_log sent (set_lastcmd "step" connected))).
Proof.
  apply (blank_line_repeats "step" "step" "  "
           "ws://localhost:8002/debug_session/qdb" ["quit"] connected);
    [apply list_elem_of_here | reflexivity..].
Defined.

(** [clear a.py 10] *)
Lemma do_clear_two_tokens_witness :
  do_clear "a.py 10" connected
  = (inl (),
     add_log (ESend (json_dumps (PDict {[
         "e" := PStr "clear_break";
         "p" := PDict {[ "file" := PStr "a.py"; "line" := PStr "10";
                         "func" := PNone; "cond" := PNone ]} ]}))) connected).
Proof.
  apply (do_clear_two_tokens "a.py 10" "a.py" "10"
           "ws://localhost:8002/debug_session/qdb" connected); reflexivity.
Defined.

(** [clear a.py] *)
Lemma do_clear_one_token_witness :
  do_clear "a.py" connected
  = (inr IndexError,
     add_log (EPrint "*** error: break_arg: Missing line number") connected).
Proof. apply (do_clear_one_token "a.py" "a.py" connected). reflexivity. Defined.

(** [clear a.py 10 f] *)
Lemma do_clear_optional_witness :
  do_clear "a.py 10 f" connected = (inr TypeError, connected).
Proof. apply (do_clear_optional "a.py 10 f" connected). vm_compute. lia. Defined.

(** [watch x y] and [unwatch x y] *)
Lemma do_watch_names_witness :
  let names := PList (PStr <$> split "x y") in
  split "x y" ≠ []
  ∧ do_watch "x y" connected
    = (inl (), add_log (ESend (json_dumps (PDict {[
          "e" := PStr "set_watch"; "p" := names ]}))) connected)
  ∧ do_unwatch "x y" connected
    = (inl (), add_log (ESend (json_dumps (PDict {[
          "e" := PStr "clear_watch"; "p" := names ]}))) connected).
Proof.
  apply (do_watch_names "x y" "ws://localhost:8002/debug_session/qdb" connected);
    reflexivity.
Defined.

(** [do_watch(' ')] *)
Lemma do_watch_blank_witness :
  do_watch " " connected
  = (inl (), add_log (ESend (json_dumps (PDict {[ "e" := PStr "set_watch" ]})))
                     connected)
  ∧ do_unwatch " " connected
    = (inl (), add_log (ESend (json_dumps (PDict {[ "e" := PStr "clear_watch" ]})))
                       connected).
Proof.
  apply (do_watch_blank " " "ws://localhost:8002/debug_session/qdb" connected);
    [reflexivity | discriminate | reflexivity].
Defined.

(** [unt], with an argument that is ignored. *)
Lemma plain_commands_send_tag_witness :
  ∃ func, QdbRepl.getattr ("do_" ++ "unt") = Some func
          ∧ func "12" connected
            = (inl (), add_log (ESend (json_dumps (PDict {[ "e" := PStr "until" ]})))
                               connected).
Proof.
  apply (plain_commands_send_tag "unt" "until" "12"
           "ws://localhost:8002/debug_session/qdb" connected); [|reflexivity].
  do 7 apply list_elem_of_further. apply list_elem_of_here.
Defined.

(** The line [x + 1]: [x] names no command. *)
Lemma onecmd_eval_witness :
  onecmd "x + 1" connected
  = (inl false,
     add_log (ESend (json_dumps (PDict {[ "e" := PStr "eval"; "p" := PStr "x + 1" ]})))
             (set_lastcmd "x + 1" connected)).
Proof.
  apply (onecmd_eval "x + 1" "x + 1" "ws://localhost:8002/debug_session/qdb"
           (Some "x") (Some "+ 1") connected).
  - reflexivity.
  - vm_compute. reflexivity.
  - discriminate.
  - intros c Hc. injection Hc as <-. right. reflexivity.
Defined.

(** [quit], and a line that is never read. *)
Lemma loop_returns_stopped_witness :
  _stop (loop ["quit"; "step"] connected).2 = true.
Proof.
  apply (loop_returns_stopped ["quit"; "step"] connected).
  vm_compute. reflexivity.
Defined.

(** An empty address, the uuid [abc] and no auth message. *)
Lemma preloop_defaults_witness :
  let st := (preloop (QdbRepl.init (Some "") (Some "abc") None)).2 in
  (preloop (QdbRepl.init (Some "") (Some "abc") None)).1 = inl ()
  ∧ wsaddress st = Some DEFAULT_WS_ADDRESS ∧ uuid st = Some "abc"
  ∧ auth_msg st = Some ""
  ∧ _ws st = Some (format_uuid DEFAULT_WS_ADDRESS "abc")
  ∧ filename st = Some (FILE_FORMAT "abc")
  ∧ _stop st = false ∧ lastcmd st = "".
Proof. apply (preloop_defaults (Some "") (Some "abc") None). reflexivity. Defined.

(** No address, the uuid [abc] and the auth message [secret]. *)
Lemma main_end_of_input_witness :
  (main None (Some "abc") (Some "secret") []).1 = inr NameError
  ∧ log (main None (Some "abc") (Some "secret") []).2
    = [ EConnect (format_uuid DEFAULT_WS_ADDRESS "abc");
        ESend (fmt_msg "start" (PStr "secret"));
        ESpawn (FILE_FORMAT "abc");
        EPrint ("qdb connected: " ++ FILE_FORMAT "abc");
        ESend (json_dumps (PDict {[ "e" := PStr "disable"; "p" := PStr "soft" ]})) ].
Proof.
  apply (main_end_of_input None (Some "abc") (Some "secret")). reflexivity.
Defined.

(** The frame [[]]: JSON, but not an object. *)
Lemma dispatch_no_tag_witness :
  dispatch (PList []) ["Tracing..."] = (inr TypeError, ["Tracing..."])
  ∧ step (Printer Reading ["Tracing..."] [Some (Doc (PList [])); None])
    = Some (Printer (Crashed TypeError) ["Tracing..."] [None]).
Proof.
  apply (dispatch_no_tag (H := runtime) (PList []) ["Tracing..."]
           (Doc (PList [])) [None]);
    [|reflexivity].
  intros d tag Hd. discriminate Hd.
Defined.

(** A frame of the stack with no code. *)
Lemma event_stack_without_code_witness :
  let d : gmap string pyval := {[ "file" := PStr "a.py"; "line" := PInt 7 ]} in
  event_stack (PList ([] ++ [PDict d])) ["Tracing..."]
  = (inr (match d !! "code" with None => KeyError | Some _ => TypeError end),
     (["Tracing..."] ++ [("> " ++ to_str (PStr "a.py") ++ ":" ++ "7")%string])%list).
Proof.
  apply (event_stack_without_code []
           {[ "file" := PStr "a.py"; "line" := PInt 7 ]}
           (PStr "a.py") (PInt 7) "7" ["Tracing..."]); try reflexivity.
  intros code Hc. vm_compute in Hc. discriminate Hc.
Defined.

(** A watch list of one entry. *)
Lemma event_watchlist_entries_witness :
  event_watchlist
    (PList [PDict {[ "name" := PStr "x"; "value" := PInt 1 ]}]) ["Tracing..."]
  = (inl (),
     (["Tracing..."] ++ ["watchlist: ["]
        ++ (watched_line <$> [(PStr "x", PInt 1)]) ++ ["]"])%list).
Proof.
  apply (event_watchlist_entries
           [PDict {[ "name" := PStr "x"; "value" := PInt 1 ]}]
           [(PStr "x", PInt 1)] ["Tracing..."]).
  constructor; [|constructor].
  eexists. split_and!; reflexivity.
Defined.

(** A watch list whose second entry is a string. *)
Lemma event_watchlist_cut_witness :
  event_watchlist
    (PList ([PDict {[ "name" := PStr "x"; "value" := PInt 1 ]}]
              ++ PStr "y" :: [])) ["Tracing..."]
  = (inr TypeError,
     (["Tracing..."] ++ ["watchlist: ["]
        ++ (watched_line <$> [(PStr "x", PInt 1)]))%list).
Proof.
  apply (event_watchlist_cut
           [PDict {[ "name" := PStr "x"; "value" := PInt 1 ]}] [] (PStr "y")
           [(PStr "x", PInt 1)] TypeError ["Tracing..."]).
  - constructor; [|constructor].
    eexists. split_and!; reflexivity.
  - left. reflexivity.
Defined.

(** A [print] event with an empty output and no input. *)
Lemma event_print_cases_witness :
  event_print (PDict {[ "output" := PStr "" ]}) ["Tracing..."]
  = (inl (), ["Tracing..."]).
Proof.
  apply (event_print_cases {[ "output" := PStr "" ]} (PStr "") ["Tracing..."]).
  reflexivity.
Defined.

(** [event_error] on a payload that is absent. *)
Lemma one_line_renderers_witness :
  match event_error PNone ["Tracing..."] with
  | (inr _, f') => f' = ["Tracing..."]
  | (inl _, f') => f' = ["Tracing..."] ∨ ∃ line, f' = (["Tracing..."] ++ [line])%list
  end.
Proof.
  apply (one_line_renderers event_error PNone ["Tracing..."]).
  do 3 apply list_elem_of_further. apply list_elem_of_here.
Defined.

(** The error [NameError: x]. *)
Lemma event_error_line_witness :
  dispatch
    (PDict {[ "e" := PStr "error";
              "p" := PDict {[ "type" := PStr "NameError"; "data" := PStr "x" ]} ]})
    ["Tracing..."]
  = (inl (), ["Tracing..."; "*** error: NameError: x"]).
Proof.
  apply (event_error_line
           {[ "e" := PStr "error";
              "p" := PDict {[ "type" := PStr "NameError"; "data" := PStr "x" ]} ]}
           {[ "type" := PStr "NameError"; "data" := PStr "x" ]}
           (PStr "NameError") (PStr "x") ["Tracing..."]); reflexivity.
Defined.

(** A [watchlist] event without payload. *)
Lemma dispatch_without_payload_witness :
  dispatch (PDict {[ "e" := PStr "watchlist" ]}) ["Tracing..."]
  = (inr TypeError, ["Tracing..."; "watchlist: ["]).
Proof.
  apply (dispatch_without_payload "watchlist"
           (inr TypeError, ["Tracing..."; "watchlist: ["])
           {[ "e" := PStr "watchlist" ]} ["Tracing..."]); [|reflexivity..].
  do 3 apply list_elem_of_further. apply list_elem_of_here.
Defined.

End Runs.
